(** * MUSE output cache ([muse.outputs.cache], [muse.outputs.sector])

    A shallow embedding of the output-caching subsystem of MUSE and the
    properties of its accumulate-and-flush behaviour.

    Python objects are modelled by the data they carry:
    - a [dict] is an insertion-ordered association list with unique keys
      ([dict_set] replaces in place, appends otherwise);
    - an exception is a value of [exn], a call that may raise returns a
      [result];
    - an [xr.DataArray] is a name, its dimensions and one record per element
      (the labels of the element along each dimension and its value), in
      row-major order; every dimension carries a coordinate, and there is
      no coordinate besides those of the dimensions;
    - an [xr.Dataset], as this program uses it, is the ordered collection of
      its data variables; the alignment xarray performs when a variable is
      assigned (re-indexing on the coordinates the dataset has, or an
      error) is a parameter of the assignment, [xr_align] being xarray's
      behaviour on the arrays described above;
    - a [pd.DataFrame] is its list of column names and its rows, each row a
      list of cells in column order;
    - numeric cells are integers: the program only compares them for
      equality. *)

From Stdlib Require Import String Ascii ZArith Bool Arith Lia OrderedTypeEx.
From Stdlib Require Import List Sorted Permutation.
Import ListNotations.
Open Scope string_scope.
Open Scope list_scope.

Set Implicit Arguments.

(** ** Python runtime *)

Inductive exn : Type :=
| TypeError
| KeyError
| AttributeError
| ValueError
| MergeError
| OtherError (msg : string).

Inductive result (A : Type) : Type :=
| Ok (a : A)
| Raise (e : exn).

Arguments Ok {A} a.
Arguments Raise {A} e.

Definition bind {A B : Type} (r : result A) (k : A -> result B) : result B :=
  match r with
  | Ok a => k a
  | Raise e => Raise e
  end.

Notation "'let*' x ':=' r 'in' k" := (bind r (fun x => k))
  (at level 10, x name, r at level 100, k at level 200).

(** Keys of dictionaries: types with a boolean equality. *)
Class EqKey (K : Type) : Type := {
  keqb : K -> K -> bool;
  keqb_eq : forall x y, keqb x y = true <-> x = y
}.

#[export] Instance EqKey_string : EqKey string :=
  {| keqb := String.eqb; keqb_eq := String.eqb_eq |}.

#[export] Instance EqKey_nat : EqKey nat :=
  {| keqb := Nat.eqb; keqb_eq := Nat.eqb_eq |}.

(** Insertion-ordered dictionaries. *)
Section Dict.
Context {K V : Type} `{EqKey K}.

Definition dict : Type := list (K * V).

(** [d.get(k)] *)
Fixpoint dict_get (k : K) (d : dict) : option V :=
  match d with
  | [] => None
  | (k', v) :: d' => if keqb k k' then Some v else dict_get k d'
  end.

(** [k in d] *)
Definition dict_mem (k : K) (d : dict) : bool :=
  match dict_get k d with Some _ => true | None => false end.

(** [d[k]] *)
Definition dict_getitem (k : K) (d : dict) : result V :=
  match dict_get k d with Some v => Ok v | None => Raise KeyError end.

(** [d[k] = v]: an existing key keeps its position. *)
Fixpoint dict_set (k : K) (v : V) (d : dict) : dict :=
  match d with
  | [] => [(k, v)]
  | (k', v') :: d' =>
      if keqb k k' then (k', v) :: d' else (k', v') :: dict_set k v d'
  end.

Definition dict_keys (d : dict) : list K := map fst d.
End Dict.

Arguments dict K V : clear implicits.

(** ** Arrays and tables *)

(** A scalar held by a coordinate or a cell. *)
Inductive scalar : Type :=
| SNaN
| SStr (s : string)
| SNum (z : Z).

Definition scalar_eqb (a b : scalar) : bool :=
  match a, b with
  | SNaN, SNaN => true
  | SStr s, SStr t => String.eqb s t
  | SNum x, SNum y => Z.eqb x y
  | _, _ => false
  end.

(** The name of an array or of a data variable: any hashable; here a string
    or an arrival index. *)
Inductive label : Type :=
| LStr (s : string)
| LInt (n : nat).

Record DataArray : Type := {
  da_name : option label;
  da_dims : list string;
  da_elems : list (list scalar * scalar)
}.

(** [data.copy()]: a deep copy of an immutable value. *)
Definition copy (data : DataArray) : DataArray := data.

(** [data.rename(name)] *)
Definition rename (name : label) (data : DataArray) : DataArray :=
  {| da_name := Some name; da_dims := da_dims data; da_elems := da_elems data |}.

(** A data variable of a dataset: an array without its name. *)
Record DataVar : Type := {
  var_dims : list string;
  var_elems : list (list scalar * scalar)
}.

Definition as_variable (data : DataArray) : DataVar :=
  {| var_dims := da_dims data; var_elems := da_elems data |}.

(** [xr.Dataset]: data variables by name, in insertion order. *)
Definition Dataset : Type := dict nat DataVar.

(** [xr.Dataset()] *)
Definition Dataset_new : Dataset := [].

(** [len(ds)]: the number of data variables. *)
Definition Dataset_len (ds : Dataset) : nat := length ds.

(** [ds[key] = data]: xarray first aligns the new variable on the
    coordinates of the dataset, which gives the variable as it is stored or
    raises; the variables already there are left as they are. *)
Definition Dataset_setitem (align : Dataset -> DataArray -> result DataVar)
           (key : nat) (data : DataArray) (ds : Dataset) : result Dataset :=
  let* v := align ds data in
  Ok (dict_set key v ds).

(** [ds[key]]: the variable as an array named by its key. *)
Definition Dataset_getitem (key : nat) (ds : Dataset) : result DataArray :=
  let* v := dict_getitem key ds in
  Ok {| da_name := Some (LInt key); da_dims := var_dims v; da_elems := var_elems v |}.

(** [pd.DataFrame] *)
Record DataFrame : Type := {
  columns : list string;
  rows : list (list scalar)
}.

(** What a quantity function returns: a table carrying a [name] attribute,
    or [None]. *)
Inductive pyobj : Type :=
| ONone
| OFrame (name : option string) (df : DataFrame).

(** ** Helpers standing for Python built-ins *)

(** [sorted(l, key=...)]: a stable sort; [le x y] compares the keys. *)
Fixpoint insert_sorted {A : Type} (le : A -> A -> bool) (x : A) (l : list A) : list A :=
  match l with
  | [] => [x]
  | y :: l' => if le x y then x :: y :: l' else y :: insert_sorted le x l'
  end.

Definition sorted {A : Type} (le : A -> A -> bool) (l : list A) : list A :=
  fold_right (insert_sorted le) [] l.

(** A loop whose body may raise. *)
Fixpoint foldM {A B : Type} (f : A -> B -> result A) (l : list B) (a : A) : result A :=
  match l with
  | [] => Ok a
  | x :: l' => let* a' := f a x in foldM f l' a'
  end.

(** A list comprehension whose element expression may raise. *)
Fixpoint mapM {A B : Type} (f : A -> result B) (l : list A) : result (list B) :=
  match l with
  | [] => Ok []
  | x :: l' => let* y := f x in let* ys := mapM f l' in Ok (y :: ys)
  end.

(** [functools.reduce(f, l)] without initial value. *)
Definition reduce {A : Type} (f : A -> A -> result A) (l : list A) : result A :=
  match l with
  | [] => Raise TypeError
  | x :: l' => foldM f l' x
  end.

(** [collections.ChainMap]: the list of its maps, searched in order. *)
Section ChainMap.
Context {K V : Type} `{EqKey K}.

Definition ChainMap : Type := list (dict K V).

(** The constructor [ChainMap]: with no map given, one empty map. *)
Definition ChainMap_new (maps : list (dict K V)) : ChainMap :=
  match maps with
  | [] => [[]]
  | _ => maps
  end.

(** [cm.get(k)]: the first map holding [k] answers. *)
Fixpoint ChainMap_get (k : K) (cm : ChainMap) : option V :=
  match cm with
  | [] => None
  | m :: cm' =>
      match dict_get k m with
      | Some v => Some v
      | None => ChainMap_get k cm'
      end
  end.

(** [cm[k]] *)
Definition ChainMap_getitem (k : K) (cm : ChainMap) : result V :=
  match ChainMap_get k cm with Some v => Ok v | None => Raise KeyError end.

(** [list(cm)]: keys of the maps taken from the last map to the first,
    each key once, at its first position. *)
Definition ChainMap_keys (cm : ChainMap) : list K :=
  fold_left
    (fun d m =>
       fold_left
         (fun d k => if existsb (keqb k) d then d else d ++ [k])
         (dict_keys m) d)
    (rev cm) [].
End ChainMap.

Arguments ChainMap K V : clear implicits.

(** ** Agent metadata extractor *)

Record Agent : Type := {
  agent_uuid : string;
  agent_name : string;
  agent_category : string
}.

(** A sector as [extract_agents_internal] reads it: its [name] and [agents]
    attributes, each possibly absent. *)
Record Sector : Type := {
  sector_name : option string;
  sector_agents : option (list Agent)
}.

Definition AgentRecord : Type := dict string string.
Definition AgentInfo : Type := ChainMap string AgentRecord.

Definition agent_record (sname : string) (agent : Agent) : AgentRecord :=
  dict_set "sector" sname
    (dict_set "type" (agent_category agent)
       (dict_set "agent" (agent_name agent) [])).

Definition name_or_unnamed (sector : Sector) : string :=
  match sector_name sector with
  | Some n => n
  | None => "unnamed"
  end.

Definition agents_or_empty (sector : Sector) : list Agent :=
  match sector_agents sector with
  | Some l => l
  | None => []
  end.

Definition name_le (a b : Agent) : bool :=
  String.leb (agent_name a) (agent_name b).

Definition extract_agents_internal (sector : Sector) : dict string AgentRecord :=
  let sname := name_or_unnamed sector in
  let agents := sorted name_le (agents_or_empty sector) in
  fold_left
    (fun info agent => dict_set (agent_uuid agent) (agent_record sname agent) info)
    agents [].

Definition extract_agents (sectors : list Sector) : AgentInfo :=
  ChainMap_new (map extract_agents_internal sectors).

(** ** The table operations the consolidation functions use *)

Definition mem (c : string) (l : list string) : bool := existsb (String.eqb c) l.

(** Position of a column name among the columns. *)
Fixpoint col_index (c : string) (cols : list string) : option nat :=
  match cols with
  | [] => None
  | c' :: cols' =>
      if String.eqb c c' then Some 0
      else match col_index c cols' with
           | Some i => Some (S i)
           | None => None
           end
  end.

(** The cell of row [r] under column [c]; a missing value reads as NaN. *)
Definition cell (cols : list string) (r : list scalar) (c : string) : scalar :=
  match col_index c cols with
  | Some i => nth i r SNaN
  | None => SNaN
  end.

(** [data.rename(quantity).to_dataframe().reset_index()]: one row per
    element, the dimensions then the value as columns. [to_dataframe]
    refuses an array without dimension, and [reset_index] cannot insert a
    dimension named like the value column: both are a [ValueError]. *)
Definition to_dataframe (quantity : string) (data : DataArray) : result DataFrame :=
  let data := rename (LStr quantity) data in
  match da_dims data with
  | [] => Raise ValueError
  | dims =>
      if mem quantity dims then Raise ValueError
      else Ok {| columns := dims ++ [quantity];
                 rows := map (fun e => fst e ++ [snd e]) (da_elems data) |}
  end.

(** [pd.DataFrame.merge(left, right, how="right")]: joins on the columns
    the two tables share; every row of [right] is kept, in order, once per
    matching row of [left], or once with NaN in the columns only [left] has
    when no row matches. *)
Definition merge_right (left right : DataFrame) : result DataFrame :=
  let on := filter (fun c => mem c (columns right)) (columns left) in
  let ronly := filter (fun c => negb (mem c (columns left))) (columns right) in
  let rcell r c := cell (columns right) r c in
  let lcell l c := cell (columns left) l c in
  let matching r :=
    filter (fun l => forallb (fun c => scalar_eqb (lcell l c) (rcell r c)) on)
           (rows left) in
  let join r :=
    match matching r with
    | [] => [map (fun c => if mem c (columns right) then rcell r c else SNaN)
                 (columns left)
             ++ map (rcell r) ronly]
    | ls => map (fun l => map (lcell l) (columns left) ++ map (rcell r) ronly) ls
    end in
  match on with
  | [] => Raise MergeError
  | _ => Ok {| columns := columns left ++ ronly;
               rows := flat_map join (rows right) |}
  end.

(** [df[c]]: the column as a series. *)
Definition getcol (c : string) (df : DataFrame) : result (list scalar) :=
  match col_index c (columns df) with
  | Some i => Ok (map (fun r => nth i r SNaN) (rows df))
  | None => Raise KeyError
  end.

(** [df.c]: attribute access to a column. *)
Definition getattr_col (c : string) (df : DataFrame) : result (list scalar) :=
  match col_index c (columns df) with
  | Some i => Ok (map (fun r => nth i r SNaN) (rows df))
  | None => Raise AttributeError
  end.

(** [series != 0] *)
Definition ne_zero (s : scalar) : bool := negb (scalar_eqb s (SNum 0)).

(** [df[mask]]: the rows whose mask bit is set. *)
Fixpoint select_rows (mask : list bool) (rs : list (list scalar)) : list (list scalar) :=
  match mask, rs with
  | b :: mask', r :: rs' =>
      if b then r :: select_rows mask' rs' else select_rows mask' rs'
  | _, _ => []
  end.

Definition select (mask : list bool) (df : DataFrame) : DataFrame :=
  {| columns := columns df; rows := select_rows mask (rows df) |}.

(** Replace the cell at position [i]. *)
Fixpoint set_nth (i : nat) (v : scalar) (r : list scalar) {struct r}
  : list scalar :=
  match r, i with
  | [], _ => []
  | _ :: r', 0 => v :: r'
  | x :: r', S i' => x :: set_nth i' v r'
  end.

Fixpoint map_mask (f : bool -> list scalar -> list scalar)
         (mask : list bool) (rs : list (list scalar)) : list (list scalar) :=
  match mask, rs with
  | b :: mask', r :: rs' => f b r :: map_mask f mask' rs'
  | _, _ => rs
  end.

(** [df.loc[mask, key] = value] with a scalar [value]: an existing column
    is overwritten on the masked rows; a missing column is added, NaN on
    the other rows, which pandas refuses on a table without rows. *)
Definition loc_set (mask : list bool) (key : string) (value : scalar)
           (df : DataFrame) : result DataFrame :=
  match col_index key (columns df) with
  | Some i =>
      Ok {| columns := columns df;
            rows := map_mask (fun b r => if b then set_nth i value r else r)
                             mask (rows df) |}
  | None =>
      match rows df with
      | [] => Raise ValueError
      | _ =>
          Ok {| columns := columns df ++ [key];
                rows := map_mask (fun b r => r ++ [if b then value else SNaN])
                                 mask (rows df) |}
      end
  end.

(** [df[cols]]: the table with the given columns, in that order. *)
Definition select_columns (cols : list string) (df : DataFrame) : DataFrame :=
  {| columns := cols;
     rows := map (fun r => map (cell (columns df) r) cols) (rows df) |}.

(** ** Per-quantity consolidation functions *)

Definition combine_arrays (data : Dataset) (quantity : string) : result DataFrame :=
  let* frames :=
    mapM (fun order =>
            let* a := Dataset_getitem order data in
            to_dataframe quantity a)
         (dict_keys data) in
  reduce (fun left right => merge_right left right) frames.

(** The loop of [capacity] over the agents of the record. *)
Definition enrich_agent (agents : AgentInfo) (data : DataFrame) (agent : string)
  : result DataFrame :=
  let* col := getattr_col "agent" data in
  let filter := map (scalar_eqb (SStr agent)) col in
  let* record := ChainMap_getitem agent agents in
  foldM (fun data kv => loc_set filter (fst kv) (SStr (snd kv)) data) record data.

Definition enrich (agents : AgentInfo) (data : DataFrame) : result DataFrame :=
  foldM (enrich_agent agents) (ChainMap_keys agents) data.

Definition capacity (cached : Dataset) (agents : AgentInfo) : result DataFrame :=
  let quantity := "capacity" in
  let* data := combine_arrays cached quantity in
  let* col := getcol quantity data in
  let data := select (map ne_zero col) data in
  let* data := enrich agents data in
  Ok (select_columns (sorted String.leb (columns data)) data).

(** ** Output parameters *)

(** An output parameter: a lone string or a mapping, whose values are
    again strings or mappings. *)
#[warnings="-register-all"]
Inductive pyval : Type :=
| VStr (s : string)
| VDict (d : list (string * pyval)).

(** [p[key]] with a string key: a string is not indexed by strings. *)
Definition getitem (key : string) (p : pyval) : result pyval :=
  match p with
  | VStr _ => Raise TypeError
  | VDict d => dict_getitem key d
  end.

(** [x in d]: a mapping is not hashable. *)
Definition contains {V : Type} (x : pyval) (d : dict string V) : result bool :=
  match x with
  | VStr s => Ok (dict_mem s d)
  | VDict _ => Raise TypeError
  end.

(** [d[x]] *)
Definition lookup {V : Type} (x : pyval) (d : dict string V) : result V :=
  match x with
  | VStr s => dict_getitem s d
  | VDict _ => Raise TypeError
  end.

(** [d.pop(key)] on a copy: the value and the remaining entries. *)
Definition pop (key : string) (d : list (string * pyval))
  : result (pyval * list (string * pyval)) :=
  let* v := dict_getitem key d in
  Ok (v, filter (fun kv => negb (String.eqb key (fst kv))) d).

(** ** The registry of cached quantities *)

(** A registered function as the cache calls it: the container, the agent
    record and the keyword arguments bound by the output parameter. *)
Definition QuantityFn : Type :=
  Dataset -> AgentInfo -> list (string * pyval) -> result pyobj.

Definition Registry : Type := dict string QuantityFn.

(** [register_output_quantity]: the result, when a table, is named after
    the function. *)
Definition register_output_quantity (fname : string)
           (function : Dataset -> AgentInfo -> list (string * pyval) -> result pyobj)
  : QuantityFn :=
  fun cached agents kwargs =>
    let* r := function cached agents kwargs in
    match r with
    | OFrame _ df => Ok (OFrame (Some fname) df)
    | ONone => Ok ONone
    end.

(** [capacity(cached, agents)] accepts no keyword argument. *)
Definition capacity_fn : QuantityFn :=
  register_output_quantity "capacity"
    (fun cached agents kwargs =>
       match kwargs with
       | [] => let* df := capacity cached agents in Ok (OFrame None df)
       | _ => Raise TypeError
       end).

(** [production(cached)] and [lcoe(cached)] take one positional argument:
    the call with the container and the agent record is a [TypeError]. *)
Definition production_fn : QuantityFn :=
  register_output_quantity "production" (fun _ _ _ => Raise TypeError).

Definition lcoe_fn : QuantityFn :=
  register_output_quantity "lcoe" (fun _ _ _ => Raise TypeError).

Definition OUTPUT_QUANTITIES : Registry :=
  [("capacity", capacity_fn); ("production", production_fn); ("lcoe", lcoe_fn)].

(** ** The output cache *)

Section OutputCache.

(** What the sinks act on (files on disk). *)
Variable World : Type.

(** An action on the world that may raise. *)
Definition act (A : Type) : Type := World -> result A * World.

(** [sink(table, year=year)] *)
Definition Sink : Type := pyobj -> Z -> act unit.

(** [muse.outputs.sinks.factory(param, sector_name=...)] *)
Variable sink_factory : pyval -> string -> result Sink.

(** [int(market.year.min())] on a container. *)
Variable year_min : Dataset -> result Z.

(** The alignment [xr.Dataset.__setitem__] performs on a new variable. *)
Variable align : Dataset -> DataArray -> result DataVar.

(** The callable [_factory] returns, as the cache calls it. *)
Definition Callable : Type := Dataset -> AgentInfo -> act unit.

Definition _quantity_factory (parameters : pyval) (registry : Registry)
  : result (Dataset -> AgentInfo -> result pyobj) :=
  match parameters with
  | VStr _ => Raise TypeError
  | VDict config =>
      let* popped := pop "quantity" config in
      let* named :=
        match fst popped with
        | VDict params =>
            let* p := pop "name" params in Ok (fst p, snd p)
        | quantity => Ok (quantity, [])
        end in
      let* function := lookup (fst named) registry in
      Ok (fun market agents => function market agents (snd named))
  end.

(** The list comprehension of [save_multiple_outputs]. *)
Fixpoint save_each (market : Dataset) (agents : AgentInfo) (year : Z)
         (pairs : list ((Dataset -> AgentInfo -> result pyobj) * Sink))
  : act unit :=
  fun w =>
    match pairs with
    | [] => (Ok tt, w)
    | (quantity, sink) :: pairs' =>
        match quantity market agents with
        | Raise e => (Raise e, w)
        | Ok table =>
            match sink table year w with
            | (Ok _, w') => save_each market agents year pairs' w'
            | (Raise e, w') => (Raise e, w')
            end
        end
    end.

Definition save_multiple_outputs
           (quantities : list (Dataset -> AgentInfo -> result pyobj))
           (sinks : list Sink) : Callable :=
  fun market agents w =>
    match year_min market with
    | Raise e => (Raise e, w)
    | Ok year => save_each market agents year (combine quantities sinks) w
    end.

(** [_factory(registry, parameters..., sector_name=...)]; the registry is
    never [None] on the calls of the cache. *)
Definition _factory (registry : Registry) (parameters : list pyval)
           (sector_name : string) : result Callable :=
  let params :=
    map (fun o => match o with
                  | VStr s => VDict [("quantity", VStr s)]
                  | _ => o
                  end) parameters in
  let* quantities := mapM (fun param => _quantity_factory param registry) params in
  let* sinks := mapM (fun param => sink_factory param sector_name) params in
  Ok (save_multiple_outputs quantities sinks).

Record OutputCache : Type := {
  agents : AgentInfo;
  to_save : dict string Dataset;
  factory : dict string Callable
}.

(** A key of [to_save] or [factory] must be hashable. *)
Definition as_key (x : pyval) : result string :=
  match x with
  | VStr s => Ok s
  | VDict _ => Raise TypeError
  end.

(** One turn of the comprehension building [self.to_save]. *)
Definition to_save_step (output_quantities : Registry)
           (acc : dict string Dataset) (p : pyval) : result (dict string Dataset) :=
  let* q := getitem "quantity" p in
  let* registered := contains q output_quantities in
  if registered : bool then
    let* q := getitem "quantity" p in
    let* k := as_key q in
    Ok (dict_set k Dataset_new acc)
  else Ok acc.

(** One turn of the comprehension building [self.factory]. *)
Definition factory_step (output_quantities : Registry)
           (to_save : dict string Dataset)
           (acc : dict string Callable) (p : pyval) : result (dict string Callable) :=
  let* q := getitem "quantity" p in
  let* retained := contains q to_save in
  if retained : bool then
    let* q := getitem "quantity" p in
    let* k := as_key q in
    let* f := _factory output_quantities [p] "Cache" in
    Ok (dict_set k f acc)
  else Ok acc.

Definition registry_or_default (output_quantities : option Registry) : Registry :=
  match output_quantities with
  | None => OUTPUT_QUANTITIES
  | Some r => r
  end.

(** [OutputCache(parameters..., output_quantities=..., sectors=...)]; the
    subscription to the topic is left to the bus. *)
Definition OutputCache_init (parameters : list pyval)
           (output_quantities : option Registry)
           (sectors : option (list Sector)) : result OutputCache :=
  let output_quantities := registry_or_default output_quantities in
  let agents :=
    match sectors with
    | Some s => extract_agents s
    | None => [[]]
    end in
  let* to_save := foldM (to_save_step output_quantities) parameters [] in
  let* factory := foldM (factory_step output_quantities to_save) parameters [] in
  Ok {| agents := agents; to_save := to_save; factory := factory |}.

(** A method: it acts on the object and on the world, and may raise. *)
Definition method (A : Type) : Type :=
  OutputCache * World -> result A * (OutputCache * World).

(** [quantity if quantity is not None else data.name] *)
Definition effective_quantity (data : DataArray) (quantity : option string)
  : option label :=
  match quantity with
  | Some q => Some (LStr q)
  | None => da_name data
  end.

(** [self.cache(data, quantity)] *)
Definition cache (data : DataArray) (quantity : option string) : method unit :=
  fun st =>
    let self := fst st in
    let quantity := effective_quantity data quantity in
    match quantity with
    | Some (LStr q) =>
        match dict_get q (to_save self) with
        | None => (Ok tt, st)
        | Some ds =>
            let order := Dataset_len ds in
            match Dataset_setitem align order (rename (LStr q) (copy data)) ds with
            | Raise e => (Raise e, st)
            | Ok ds' =>
                (Ok tt,
                 ({| agents := agents self;
                     to_save := dict_set q ds' (to_save self);
                     factory := factory self |}, snd st))
            end
        end
    | _ => (Ok tt, st)
    end.

(** One turn of the loop of [consolidate_cache]. *)
Definition flush (self : OutputCache) (item : string * Dataset) : act unit :=
  fun w =>
    if Nat.eqb (Dataset_len (snd item)) 0 then (Ok tt, w)
    else
      match dict_getitem (fst item) (factory self) with
      | Raise e => (Raise e, w)
      | Ok f => f (snd item) (agents self) w
      end.

Fixpoint flush_all (self : OutputCache) (items : list (string * Dataset))
  : act unit :=
  fun w =>
    match items with
    | [] => (Ok tt, w)
    | item :: items' =>
        match flush self item w with
        | (Ok _, w') => flush_all self items' w'
        | (Raise e, w') => (Raise e, w')
        end
    end.

(** [self.consolidate_cache()] *)
Definition consolidate_cache : method unit :=
  fun st =>
    let self := fst st in
    match flush_all self (to_save self) (snd st) with
    | (Raise e, w') => (Raise e, (self, w'))
    | (Ok _, w') =>
        (Ok tt,
         ({| agents := agents self;
             to_save := map (fun kv => (fst kv, Dataset_new)) (to_save self);
             factory := factory self |}, w'))
    end.

(** The calls a driver makes on the cache. *)
Inductive call : Type :=
| Cache (data : DataArray) (quantity : option string)
| Consolidate.

Definition run_call (c : call) : method unit :=
  match c with
  | Cache data quantity => cache data quantity
  | Consolidate => consolidate_cache
  end.

(** A sequence of calls, stopped by the first that raises. *)
Fixpoint run (cs : list call) : method unit :=
  fun st =>
    match cs with
    | [] => (Ok tt, st)
    | c :: cs' =>
        match run_call c st with
        | (Ok _, st') => run cs' st'
        | (Raise e, st') => (Raise e, st')
        end
    end.

End OutputCache.

(** ** The alignment of xarray on arrays with labelled dimensions *)

Fixpoint scalars_eqb (l1 l2 : list scalar) : bool :=
  match l1, l2 with
  | [], [] => true
  | x :: l1', y :: l2' => scalar_eqb x y && scalars_eqb l1' l2'
  | _, _ => false
  end.

(** The labels of a list, each once, in order of first appearance. *)
Fixpoint distinct (l : list scalar) : list scalar :=
  match l with
  | [] => []
  | x :: l' => x :: filter (fun y => negb (scalar_eqb x y)) (distinct l')
  end.

Fixpoint uniqueb (l : list scalar) : bool :=
  match l with
  | [] => true
  | x :: l' => negb (existsb (scalar_eqb x) l') && uniqueb l'
  end.

(** The index of dimension [d] of an array: the labels of its elements
    along [d]; an array of several dimensions lists each label once per
    element of the other dimensions. *)
Definition index_of (dims : list string) (elems : list (list scalar * scalar))
           (d : string) : option (list scalar) :=
  match col_index d dims with
  | None => None
  | Some i =>
      let labels := map (fun e => nth i (fst e) SNaN) elems in
      Some (match dims with
            | [_] => labels
            | _ => distinct labels
            end)
  end.

(** The index a dataset has along [d]: that of its first variable with
    that dimension, the others being aligned on it. *)
Fixpoint Dataset_index (d : string) (ds : Dataset) : option (list scalar) :=
  match ds with
  | [] => None
  | (_, v) :: ds' =>
      match index_of (var_dims v) (var_elems v) d with
      | Some index => Some index
      | None => Dataset_index d ds'
      end
  end.

(** The label tuples of an array with the given indexes, in row-major
    order. *)
Fixpoint product (indexes : list (list scalar)) : list (list scalar) :=
  match indexes with
  | [] => [[]]
  | index :: rest => flat_map (fun l => map (cons l) (product rest)) index
  end.

(** The value an array holds under a label tuple, NaN when it holds none. *)
Definition value_at (elems : list (list scalar * scalar)) (labels : list scalar)
  : scalar :=
  match find (fun e => scalars_eqb (fst e) labels) elems with
  | Some e => snd e
  | None => SNaN
  end.

(** What [xr.Dataset.__setitem__] stores: along each dimension the dataset
    already has, an array whose index differs from that of the dataset is
    re-indexed on it (labels the dataset lacks are dropped, those the array
    lacks read NaN), which xarray refuses with a [ValueError] when the
    index of the array has duplicate labels; an array whose indexes agree
    with the dataset is stored as it is. *)
Definition xr_align (ds : Dataset) (data : DataArray) : result DataVar :=
  let dims := da_dims data in
  let own d :=
    match index_of dims (da_elems data) d with
    | Some index => index
    | None => []
    end in
  let moved d :=
    match Dataset_index d ds with
    | Some index => negb (scalars_eqb (own d) index)
    | None => false
    end in
  let target d :=
    match Dataset_index d ds with
    | Some index => index
    | None => own d
    end in
  if existsb moved dims then
    if existsb (fun d => moved d && negb (uniqueb (own d))) dims
    then Raise ValueError
    else Ok {| var_dims := dims;
               var_elems :=
                 map (fun labels => (labels, value_at (da_elems data) labels))
                     (product (map target dims)) |}
  else Ok (as_variable data).

(** ** A concrete world for examples: the log of what the sinks persisted *)

Definition Log : Type := list (pyobj * Z).

Definition log_sink : Sink Log :=
  fun table year w => (Ok tt, w ++ [(table, year)]).

Definition log_sink_factory (param : pyval) (sector_name : string)
  : result (Sink Log) := Ok log_sink.

(** A sink that fails on every table. *)
Definition failing_sink : Sink Log :=
  fun _ _ w => (Raise (OtherError "disk full"), w).

Definition year_2020 (market : Dataset) : result Z := Ok 2020%Z.

Definition example_array (name : option label) (agent : string) (value : Z)
  : DataArray :=
  {| da_name := name;
     da_dims := ["agent"];
     da_elems := [([SStr agent], SNum value)] |}.

Definition capacity_param : pyval := VDict [("quantity", VStr "capacity")].

Definition empty_cache : OutputCache Log :=
  {| agents := [[]]; to_save := []; factory := [] |}.

(** A cache configured for "capacity" whose sink logs what it is given. *)
Definition example_cache : OutputCache Log :=
  match OutputCache_init log_sink_factory year_2020 [capacity_param] None None with
  | Ok self => self
  | Raise _ => empty_cache
  end.

(** The same cache with a sink that fails. *)
Definition failing_cache : OutputCache Log :=
  match OutputCache_init (fun _ _ => Ok failing_sink) year_2020
                         [capacity_param] None None with
  | Ok self => self
  | Raise _ => empty_cache
  end.

Definition example_calls : list (DataArray * option string) :=
  [(example_array None "a1" 5, Some "capacity");
   (example_array (Some (LStr "lcoe")) "a1" 7, None);
   (example_array (Some (LStr "capacity")) "a2" 0, None)].

(** The payloads of the calls made for quantity [q], in call order. *)
Definition payloads_for (q : string) (calls : list (DataArray * option string))
  : list DataArray :=
  map fst
      (filter (fun c =>
                 match effective_quantity (fst c) (snd c) with
                 | Some (LStr q') => String.eqb q q'
                 | _ => false
                 end) calls).

(** The state of a cache after [example_calls]. *)
Definition filled (self : OutputCache Log) : OutputCache Log :=
  fst (snd (run xr_align (map (fun c => Cache (fst c) (snd c)) example_calls)
                (self, []))).

(** The agent that [extract_agents_internal] records under [u]: the last
    one carrying that uuid in the order the loop visits them. *)
Definition last_with_uuid (u : string) (visited : list Agent) : option Agent :=
  find (fun b => String.eqb (agent_uuid b) u) (rev visited).

(** Two sectors that both hold an agent with uuid "X". *)
Definition power_sector : Sector :=
  {| sector_name := Some "power";
     sector_agents :=
       Some [ {| agent_uuid := "Y"; agent_name := "B2"; agent_category := "Retrofit" |};
              {| agent_uuid := "X"; agent_name := "A1"; agent_category := "New" |} ] |}.

Definition nameless_sector : Sector :=
  {| sector_name := None;
     sector_agents :=
       Some [ {| agent_uuid := "X"; agent_name := "C3"; agent_category := "Retrofit" |} ] |}.

(** The long-format table of one cached entry: one row per element, the
    dimensions then the quantity as columns. *)
Definition frame_of_entry (quantity : string) (v : DataVar) : DataFrame :=
  {| columns := var_dims v ++ [quantity];
     rows := map (fun e => fst e ++ [snd e]) (var_elems v) |}.

(** The right-biased successive merge of tables given in arrival order,
    written on the reversed list: the latest table is merged last, as the
    right side, onto the merge of the earlier ones. *)
Fixpoint merge_latest_last (rev_frames : list DataFrame) : result DataFrame :=
  match rev_frames with
  | [] => Raise TypeError
  | latest :: earlier =>
      match earlier with
      | [] => Ok latest
      | _ => let* acc := merge_latest_last earlier in merge_right acc latest
      end
  end.

Definition right_biased_merge (frames : list DataFrame) : result DataFrame :=
  merge_latest_last (rev frames).

(** The table without the rows whose [quantity] cell is zero. *)
Definition drop_zero_rows (quantity : string) (df : DataFrame) : DataFrame :=
  {| columns := columns df;
     rows := filter (fun r => ne_zero (cell (columns df) r quantity)) (rows df) |}.

(** The table with its columns in alphabetical order. *)
Definition sort_columns (df : DataFrame) : DataFrame :=
  select_columns (sorted String.leb (columns df)) df.


(** Agents in the order of their display names. *)
Definition by_name (a b : Agent) : Prop := name_le a b = true.

(** A container holding one capacity of 5 for agent "X". *)
Definition one_entry (agent : string) : Dataset :=
  [(0, {| var_dims := ["agent"]; var_elems := [([SStr agent], SNum 5)] |})].

(** A sector in which the display name of one agent is the uuid of
    another. *)
Definition chained_sector : Sector :=
  {| sector_name := Some "grid";
     sector_agents :=
       Some [ {| agent_uuid := "A"; agent_name := "B"; agent_category := "New" |};
              {| agent_uuid := "B"; agent_name := "C"; agent_category := "Retrofit" |} ] |}.

(** A table whose rows have one cell per column. *)
Definition wf_frame (df : DataFrame) : Prop :=
  Forall (fun r => length r = length (columns df)) (rows df).

(** The cell of the [j]-th row under column [c]. *)
Definition cell_at (df : DataFrame) (j : nat) (c : string) : scalar :=
  cell (columns df) (nth j (rows df) []) c.

(** The cells of a row after the items of a record were written to it. *)
Fixpoint overlay (items : list (string * string)) (base : string -> scalar)
  : string -> scalar :=
  match items with
  | [] => base
  | (k, v) :: items' =>
      overlay items' (fun c => if String.eqb c k then SStr v else base c)
  end.

(** The keys the loop of [capacity] still visits once it has visited [u]. *)
Fixpoint keys_after (u : string) (keys : list string) : list string :=
  match keys with
  | [] => []
  | k :: keys' => if String.eqb k u then keys' else keys_after u keys'
  end.

(** An entry whose elements carry one label per dimension. *)
Definition wf_entry (v : DataVar) : Prop :=
  Forall (fun e => length (fst e) = length (var_dims v)) (var_elems v).

(** A container whose arrival indices are [0, 1, 2, ...] in order. *)
Definition arrival_ordered (ds : Dataset) : Prop :=
  dict_keys ds = seq 0 (length ds).


(** An entry that [to_dataframe] and [reset_index] accept under the column
    name [quantity]: it has a dimension, and none named [quantity]. *)
Definition convertible (quantity : string) (v : DataVar) : bool :=
  match var_dims v with
  | [] => false
  | dims => negb (mem quantity dims)
  end.

(** A container every entry of which can be converted. *)
Definition all_convertible (quantity : string) (cached : Dataset) : bool :=
  forallb (fun kv => convertible quantity (snd kv)) cached.

(** Two payloads on the same two agents, the later one with another value
    for agent "Y", and the container that holds them. *)
Definition two_arrays (y_first y_later : Z) : list (DataArray * option string) :=
  [({| da_name := None; da_dims := ["agent"];
       da_elems := [([SStr "X"], SNum 5); ([SStr "Y"], SNum y_first)] |},
    Some "capacity");
   ({| da_name := Some (LStr "capacity"); da_dims := ["agent"];
       da_elems := [([SStr "X"], SNum 5); ([SStr "Y"], SNum y_later)] |},
    None)].

Definition two_entries (y_first y_later : Z) : Dataset :=
  [(0, {| var_dims := ["agent"];
          var_elems := [([SStr "X"], SNum 5); ([SStr "Y"], SNum y_first)] |});
   (1, {| var_dims := ["agent"];
          var_elems := [([SStr "X"], SNum 5); ([SStr "Y"], SNum y_later)] |})].

(** A specification that is a mapping with a string under "quantity". *)
Definition plain_spec (p : pyval) : Prop :=
  exists d k, p = VDict d /\ dict_get "quantity" d = Some (VStr k).

(** * Properties *)

Unset Implicit Arguments.

(** ** Dictionaries *)

Lemma keqb_refl {K} `{EqKey K} (x : K) : keqb x x = true.
Proof. now apply keqb_eq. Qed.

Lemma keqb_neq {K} `{EqKey K} (x y : K) : x <> y -> keqb x y = false.
Proof.
  intros Hne. destruct (keqb x y) eqn:E; [|reflexivity].
  apply keqb_eq in E. contradiction.
Qed.

Lemma keqb_false {K} `{EqKey K} (x y : K) : keqb x y = false -> x <> y.
Proof.
  intros E Heq. subst. rewrite keqb_refl in E. discriminate.
Qed.

Section DictFacts.
Context {K V : Type} `{EqKey K}.
Implicit Types (k : K) (v : V) (d : dict K V).

Lemma dict_get_set_same k v d : dict_get k (dict_set k v d) = Some v.
Proof.
  induction d as [|[k' v'] d IH]; simpl.
  - now rewrite keqb_refl.
  - destruct (keqb k k') eqn:E; simpl; rewrite E; auto.
Qed.

Lemma dict_get_set_other k k' v d :
  k <> k' -> dict_get k' (dict_set k v d) = dict_get k' d.
Proof.
  intros Hne. induction d as [|[k0 v0] d IH]; simpl.
  - rewrite keqb_neq; auto.
  - destruct (keqb k k0) eqn:E; simpl.
    + apply keqb_eq in E. subst k0. rewrite keqb_neq; auto.
    + now rewrite IH.
Qed.

Lemma dict_get_None_keys k d : dict_get k d = None <-> ~ In k (dict_keys d).
Proof.
  induction d as [|[k0 v0] d IH]; simpl.
  - tauto.
  - destruct (keqb k k0) eqn:E.
    + apply keqb_eq in E. subst. split; [discriminate|]. intros Hn. exfalso. auto.
    + apply keqb_false in E. rewrite IH. split.
      * intros Hn [Heq|Hin]; [now subst|auto].
      * intros Hn Hin. apply Hn. now right.
Qed.

(** Setting a key the dictionary does not hold appends it. *)
Lemma dict_set_fresh k v d :
  dict_get k d = None -> dict_set k v d = d ++ [(k, v)].
Proof.
  induction d as [|[k0 v0] d IH]; simpl; [reflexivity|].
  destruct (keqb k k0); [discriminate|].
  intros Hg. now rewrite IH.
Qed.
End DictFacts.

(** ** Accumulation: [cache] *)

Section CacheFacts.
Variable World : Type.
Variable align : Dataset -> DataArray -> result DataVar.
Implicit Types (self : OutputCache World) (w : World) (ds : Dataset)
         (st : OutputCache World * World).

Lemma arrival_fresh ds : arrival_ordered ds -> dict_get (length ds) ds = None.
Proof.
  intros Hk. apply dict_get_None_keys. rewrite Hk, in_seq. lia.
Qed.

(** On an ordered container the variable xarray stores goes last, under the
    size of the container. *)
Lemma setitem_next ds data v :
  arrival_ordered ds ->
  align ds data = Ok v ->
  Dataset_setitem align (Dataset_len ds) data ds = Ok (ds ++ [(length ds, v)]).
Proof.
  intros Hk Ha. unfold Dataset_setitem, Dataset_len. rewrite Ha. simpl.
  f_equal. now apply dict_set_fresh, arrival_fresh.
Qed.

(** A call that raises leaves everything as it was. *)
Lemma cache_raise_state data quantity st e :
  fst (cache align data quantity st) = Raise e ->
  cache align data quantity st = (Raise e, st).
Proof.
  unfold cache. destruct (effective_quantity data quantity) as [[q|n]|];
    try discriminate.
  destruct (dict_get q (to_save (fst st))); [|discriminate].
  destruct (Dataset_setitem align _ _ _); simpl; [discriminate|].
  now intros [= ->].
Qed.

(** A call for [q] appends what xarray stores to the container of [q], or
    raises with xarray. *)
Lemma cache_same data quantity q self w ds :
  effective_quantity data quantity = Some (LStr q) ->
  dict_get q (to_save self) = Some ds ->
  arrival_ordered ds ->
  match align ds (rename (LStr q) (copy data)) with
  | Ok v =>
      fst (cache align data quantity (self, w)) = Ok tt /\
      dict_get q (to_save (fst (snd (cache align data quantity (self, w)))))
      = Some (ds ++ [(length ds, v)])
  | Raise e => cache align data quantity (self, w) = (Raise e, (self, w))
  end.
Proof.
  intros He Hg Hk. unfold cache. rewrite He. simpl. rewrite Hg.
  destruct (align ds (rename (LStr q) (copy data))) as [v|e] eqn:Ea.
  - rewrite (setitem_next ds _ v Hk Ea). simpl.
    now rewrite dict_get_set_same.
  - unfold Dataset_setitem. now rewrite Ea.
Qed.

(** A call for another quantity leaves the container of [q] alone. *)
Lemma cache_other data quantity q self w :
  effective_quantity data quantity <> Some (LStr q) ->
  dict_get q (to_save (fst (snd (cache align data quantity (self, w)))))
  = dict_get q (to_save self).
Proof.
  intros He. unfold cache.
  destruct (effective_quantity data quantity) as [[q'|n]|]; auto.
  simpl. destruct (dict_get q' (to_save self)); auto.
  destruct (Dataset_setitem align _ _ _); auto. simpl.
  apply dict_get_set_other. congruence.
Qed.

Lemma cache_other_returns data quantity q self w ds :
  effective_quantity data quantity <> Some (LStr q) ->
  dict_get q (to_save self) = Some ds ->
  forall e, fst (cache align data quantity (self, w)) = Raise e ->
            cache align data quantity (self, w) = (Raise e, (self, w)).
Proof. intros _ _ e. apply cache_raise_state. Qed.

Lemma cache_world data quantity st :
  snd (snd (cache align data quantity st)) = snd st.
Proof.
  unfold cache. destruct (effective_quantity data quantity) as [[q|n]|]; auto.
  destruct (dict_get q (to_save (fst st))); auto.
  destruct (Dataset_setitem align _ _ _); auto.
Qed.

Lemma arrival_ordered_app ds v :
  arrival_ordered ds -> arrival_ordered (ds ++ [(length ds, v)]).
Proof.
  unfold arrival_ordered, dict_keys. intros Hk.
  rewrite map_app, length_app, Hk. simpl.
  rewrite Nat.add_1_r, seq_S. reflexivity.
Qed.

Lemma payloads_for_cons q data quantity calls :
  length (payloads_for q ((data, quantity) :: calls))
  = (match effective_quantity data quantity with
     | Some (LStr q') => if String.eqb q q' then 1 else 0
     | _ => 0
     end) + length (payloads_for q calls).
Proof.
  unfold payloads_for. cbn [filter fst snd].
  destruct (effective_quantity data quantity) as [[q'|n]|]; try reflexivity.
  destruct (String.eqb q q'); reflexivity.
Qed.

(** The container of [q] after a sequence of [cache] calls run up to the
    first that raises: [done] are the calls that returned. *)
Lemma run_cache_container q calls : forall self w ds,
  dict_get q (to_save self) = Some ds ->
  arrival_ordered ds ->
  let r := run align (map (fun c => Cache (fst c) (snd c)) calls) (self, w) in
  exists ds' done,
    dict_get q (to_save (fst (snd r))) = Some ds' /\
    arrival_ordered ds' /\
    length ds' = length ds + length (payloads_for q done) /\
    ((fst r = Ok tt /\ done = calls) \/
     exists c rest e,
       calls = done ++ c :: rest /\
       fst r = Raise e /\
       cache align (fst c) (snd c) (snd r) = (Raise e, snd r)).
Proof.
  induction calls as [|[data quantity] calls IH]; intros self w ds Hg Hk.
  - exists ds, []. simpl. repeat split; auto.
  - cbn [map run run_call fst snd].
    destruct (cache align data quantity (self, w)) as [[[]|e] [self' w']] eqn:Ec.
    + (* the call returned *)
      assert (Hnext : exists ds1,
                 dict_get q (to_save self') = Some ds1 /\
                 arrival_ordered ds1 /\
                 length ds1
                 = length ds
                   + match effective_quantity data quantity with
                     | Some (LStr q') => if String.eqb q q' then 1 else 0
                     | _ => 0
                     end).
      { destruct (effective_quantity data quantity) as [[q'|n]|] eqn:Ee.
        - destruct (String.eqb q q') eqn:Eq.
          + apply String.eqb_eq in Eq. subst q'.
            pose proof (cache_same data quantity q self w ds Ee Hg Hk) as Hs.
            destruct (align ds (rename (LStr q) (copy data))) as [v|e'].
            * rewrite Ec in Hs. simpl in Hs. destruct Hs as [_ Hs].
              exists (ds ++ [(length ds, v)]). split; [exact Hs|].
              split; [now apply arrival_ordered_app|].
              rewrite length_app. reflexivity.
            * rewrite Ec in Hs. discriminate.
          + apply String.eqb_neq in Eq.
            assert (Ho : effective_quantity data quantity <> Some (LStr q))
              by (rewrite Ee; congruence).
            pose proof (cache_other data quantity q self w Ho) as Hs.
            rewrite Ec in Hs. simpl in Hs. rewrite Hg in Hs.
            exists ds. repeat split; auto.
        - assert (Ho : effective_quantity data quantity <> Some (LStr q))
            by (rewrite Ee; congruence).
          pose proof (cache_other data quantity q self w Ho) as Hs.
          rewrite Ec in Hs. simpl in Hs. rewrite Hg in Hs.
          exists ds. repeat split; auto.
        - assert (Ho : effective_quantity data quantity <> Some (LStr q))
            by (rewrite Ee; congruence).
          pose proof (cache_other data quantity q self w Ho) as Hs.
          rewrite Ec in Hs. simpl in Hs. rewrite Hg in Hs.
          exists ds. repeat split; auto. }
      destruct Hnext as (ds1 & Hg1 & Hk1 & Hl1).
      destruct (IH self' w' ds1 Hg1 Hk1) as (ds' & done & Hd & Hk' & Hl' & Hcase).
      exists ds', ((data, quantity) :: done).
      split; [exact Hd|]. split; [exact Hk'|]. split.
      * rewrite payloads_for_cons, Hl', Hl1. lia.
      * destruct Hcase as [[Hr ->]|(c & rest & e & -> & Hr & Hc)].
        -- left. split; [exact Hr|reflexivity].
        -- right. exists c, rest, e. repeat split; auto.
    + (* the call raised *)
      pose proof (cache_raise_state data quantity (self, w) e) as Hr.
      rewrite Ec in Hr. specialize (Hr eq_refl). inversion Hr; subst self' w'.
      exists ds, []. split; [exact Hg|]. split; [exact Hk|].
      split; [simpl; lia|].
      right. exists (data, quantity), calls, e. simpl. repeat split; auto.
Qed.
End CacheFacts.


(** C6: [cache] for a quantity that is not configured returns normally and
    leaves the object, hence every container, and the world as they were. *)
Theorem cache_unconfigured_noop (World : Type)
        (align : Dataset -> DataArray -> result DataVar)
        (self : OutputCache World)
        (w : World) (data : DataArray) (q : string) :
  dict_get q (to_save self) = None ->
  cache align data (Some q) (self, w) = (Ok tt, (self, w)).
Proof.
  intros Hg. unfold cache. simpl. now rewrite Hg.
Qed.

(** C9 as amended: [cache(data)] without a quantity, on a payload without a
    name, returns normally and changes nothing. *)
Theorem cache_missing_quantity_noop (World : Type)
        (align : Dataset -> DataArray -> result DataVar)
        (st : OutputCache World * World) (data : DataArray) :
  da_name data = None ->
  cache align data None st = (Ok tt, st).
Proof.
  intros Hn. unfold cache. simpl. now rewrite Hn.
Qed.

(** ** Flush: [consolidate_cache] *)

Section ConsolidateFacts.
Variable World : Type.
Implicit Types (self : OutputCache World) (w : World).

Lemma dict_get_reset (q : string) (d : dict string Dataset) :
  dict_get q (map (fun kv => (fst kv, Dataset_new)) d)
  = match dict_get q d with Some _ => Some Dataset_new | None => None end.
Proof.
  induction d as [|[k v] d IH]; simpl; [reflexivity|].
  destruct (String.eqb q k); auto.
Qed.

(** A loop that raises did so on one item, after the items before it went
    through, and the world is the one that item left. *)
Lemma flush_all_raise self items : forall w e w',
  flush_all self items w = (Raise e, w') ->
  exists pre item post w1,
    items = pre ++ item :: post /\
    flush_all self pre w = (Ok tt, w1) /\
    flush self item w1 = (Raise e, w').
Proof.
  induction items as [|item items IH]; intros w e w' Hf; simpl in Hf.
  - discriminate.
  - destruct (flush self item w) as [[[]|e0] w0] eqn:Ef.
    + destruct (IH _ _ _ Hf) as (pre & it & post & w1 & -> & Hp & Hi).
      exists (item :: pre), it, post, w1. simpl. rewrite Ef. auto.
    + inversion Hf; subst. exists [], item, items, w. simpl. auto.
Qed.

(** The items after one that raises are never reached. *)
Lemma flush_all_app_raise self pre post w e w' :
  flush_all self pre w = (Raise e, w') ->
  flush_all self (pre ++ post) w = (Raise e, w').
Proof.
  revert w. induction pre as [|item pre IH]; intros w Hf; simpl in *.
  - discriminate.
  - destruct (flush self item w) as [[[]|e0] w0]; auto.
Qed.
End ConsolidateFacts.

(** C2: when [consolidate_cache] returns, the cache has the same configured
    quantities and the container of each is empty, whatever it held. *)
Theorem consolidate_empties (World : Type) (self self' : OutputCache World)
        (w w' : World) :
  consolidate_cache (self, w) = (Ok tt, (self', w')) ->
  dict_keys (to_save self') = dict_keys (to_save self) /\
  forall q,
    dict_get q (to_save self) <> None ->
    exists ds, dict_get q (to_save self') = Some ds /\ Dataset_len ds = 0.
Proof.
  unfold consolidate_cache. simpl.
  destruct (flush_all self (to_save self) w) as [[[]|e] w0]; [|discriminate].
  intros [= <- <-]. simpl. split.
  - unfold dict_keys. rewrite map_map. reflexivity.
  - intros q Hq. exists Dataset_new. split; [|reflexivity].
    rewrite dict_get_reset. destruct (dict_get q (to_save self)); congruence.
Qed.

(** When [consolidate_cache] raises, the error is the one raised while
    flushing some non-empty container, after the containers before it were
    flushed. *)
Lemma consolidate_raise_inv (World : Type)
      (self : OutputCache World) (w : World) (e : exn)
      (st' : OutputCache World * World) :
  consolidate_cache (self, w) = (Raise e, st') ->
  fst st' = self /\
  exists pre item post w1,
    to_save self = pre ++ item :: post /\
    flush_all self pre w = (Ok tt, w1) /\
    Dataset_len (snd item) <> 0 /\
    flush self item w1 = (Raise e, snd st').
Proof.
  unfold consolidate_cache. simpl.
  destruct (flush_all self (to_save self) w) as [[[]|e0] w0] eqn:Ef;
    [discriminate|].
  intros [= <- <-]. simpl. split; [reflexivity|].
  destruct (flush_all_raise World self _ _ _ _ Ef)
    as (pre & item & post & w1 & Hs & Hp & Hi).
  exists pre, item, post, w1. repeat split; auto.
  intros Hz. unfold flush in Hi. rewrite Hz in Hi. simpl in Hi. discriminate.
Qed.

(** C7: when the flush of one quantity raises during [consolidate_cache],
    after the quantities before it were flushed, the call raises that very
    error; the object is unchanged, so every container keeps its entries,
    those already flushed included; and the world is the one the failing
    flush left, so no later quantity is flushed. *)
Theorem consolidate_error_keeps_entries (World : Type)
        (self : OutputCache World) (w w1 w' : World) (e : exn)
        (pre post : list (string * Dataset)) (item : string * Dataset) :
  to_save self = pre ++ item :: post ->
  flush_all self pre w = (Ok tt, w1) ->
  flush self item w1 = (Raise e, w') ->
  consolidate_cache (self, w) = (Raise e, (self, w')).
Proof.
  intros Hs Hp Hi. unfold consolidate_cache. cbn [fst snd]. rewrite Hs.
  assert (Hf : flush_all self (pre ++ item :: post) w = (Raise e, w')).
  { clear Hs. revert w Hp. induction pre as [|x pre IH]; intros w Hp.
    - cbn [flush_all app] in *. inversion Hp; subst. now rewrite Hi.
    - cbn [flush_all app] in *.
      destruct (flush self x w) as [[[]|e1] w2]; [auto|discriminate]. }
  now rewrite Hf.
Qed.

(** ** Construction *)

Lemma foldM_app {A B : Type} (f : A -> B -> result A) (l1 l2 : list B) (a : A) :
  foldM f (l1 ++ l2) a = let* a1 := foldM f l1 a in foldM f l2 a1.
Proof.
  revert a. induction l1 as [|x l1 IH]; intros a; simpl; [reflexivity|].
  destruct (f a x); simpl; auto.
Qed.

(** A turn that leaves the accumulator alone can be dropped from the loop. *)
Lemma foldM_skip {A B : Type} (f : A -> B -> result A) (l1 l2 : list B) (p : B) (a : A) :
  (forall a', f a' p = Ok a') ->
  foldM f (l1 ++ p :: l2) a = foldM f (l1 ++ l2) a.
Proof.
  intros Hp. rewrite !foldM_app. destruct (foldM f l1 a); simpl; auto.
  now rewrite Hp.
Qed.

Section InitFacts.
Variable World : Type.
Variable sink_factory : pyval -> string -> result (Sink World).
Variable year_min : Dataset -> result Z.

(** Only registered quantities get a container. *)
Lemma to_save_registered (reg : Registry) (s : string) (ps : list pyval) :
  forall acc ts,
    dict_get s reg = None ->
    dict_get s acc = None ->
    foldM (to_save_step reg) ps acc = Ok ts ->
    dict_get s ts = None.
Proof.
  induction ps as [|p ps IH]; intros acc ts Hr Ha Hf; simpl in Hf.
  - now inversion Hf; subst.
  - destruct (to_save_step reg acc p) as [acc'|e] eqn:Es; simpl in Hf;
      [|discriminate].
    apply (IH acc' ts Hr); [|exact Hf].
    unfold to_save_step in Es.
    destruct (getitem "quantity" p) as [q|]; simpl in Es; [|discriminate].
    destruct q as [k|d]; simpl in Es; [|discriminate].
    unfold dict_mem in Es. destruct (dict_get k reg) eqn:Ek; simpl in Es.
    + inversion Es; subst. rewrite dict_get_set_other; [exact Ha|congruence].
    + now inversion Es; subst.
Qed.

(** Only retained quantities get a sink. *)
Lemma factory_retained (reg : Registry) (to_save : dict string Dataset)
      (s : string) (ps : list pyval) :
  forall acc fs,
    dict_get s to_save = None ->
    dict_get s acc = None ->
    foldM (factory_step sink_factory year_min reg to_save) ps acc = Ok fs ->
    dict_get s fs = None.
Proof.
  induction ps as [|p ps IH]; intros acc fs Hr Ha Hf; simpl in Hf.
  - now inversion Hf; subst.
  - destruct (factory_step sink_factory year_min reg to_save acc p)
      as [acc'|e] eqn:Es; simpl in Hf; [|discriminate].
    apply (IH acc' fs Hr); [|exact Hf].
    unfold factory_step in Es.
    destruct (getitem "quantity" p) as [q|]; simpl in Es; [|discriminate].
    destruct q as [k|d]; simpl in Es; [|discriminate].
    unfold dict_mem in Es. destruct (dict_get k to_save) eqn:Ek; simpl in Es.
    + destruct (_factory sink_factory year_min reg [p] "Cache");
        simpl in Es; [|discriminate].
      inversion Es; subst. rewrite dict_get_set_other; [exact Ha|congruence].
    + now inversion Es; subst.
Qed.

(** Every container of a new cache is empty. *)
Lemma to_save_fresh (reg : Registry) (ps : list pyval) :
  forall acc ts,
    (forall q ds, dict_get q acc = Some ds -> ds = Dataset_new) ->
    foldM (to_save_step reg) ps acc = Ok ts ->
    forall q ds, dict_get q ts = Some ds -> ds = Dataset_new.
Proof.
  induction ps as [|p ps IH]; intros acc ts Ha Hf; simpl in Hf.
  - now inversion Hf; subst.
  - destruct (to_save_step reg acc p) as [acc'|e] eqn:Es; simpl in Hf;
      [|discriminate].
    apply (IH acc' ts); [|exact Hf].
    unfold to_save_step in Es.
    destruct (getitem "quantity" p) as [q|]; simpl in Es; [|discriminate].
    destruct q as [k|d]; simpl in Es; [|discriminate].
    destruct (dict_mem k reg); simpl in Es; inversion Es; subst; [|exact Ha].
    intros q ds. destruct (String.eqb k q) eqn:E.
    + apply String.eqb_eq in E. subst. rewrite dict_get_set_same. congruence.
    + apply String.eqb_neq in E. rewrite dict_get_set_other by exact E. apply Ha.
Qed.

Lemma init_containers_fresh ps output_quantities sectors self :
  OutputCache_init sink_factory year_min ps output_quantities sectors = Ok self ->
  forall q ds, dict_get q (to_save self) = Some ds -> ds = Dataset_new.
Proof.
  unfold OutputCache_init.
  destruct (foldM (to_save_step (registry_or_default output_quantities)) ps [])
    as [ts|] eqn:Et; simpl; [|discriminate].
  destruct (foldM (factory_step sink_factory year_min
                                (registry_or_default output_quantities) ts) ps []);
    simpl; [|discriminate].
  intros [= <-]. simpl.
  apply (to_save_fresh (registry_or_default output_quantities) ps [] ts);
    [discriminate|exact Et].
Qed.

(** The turn of an unregistered quantity changes neither comprehension. *)
Lemma to_save_step_unregistered reg d s acc :
  dict_get "quantity" d = Some (VStr s) ->
  dict_get s reg = None ->
  to_save_step reg acc (VDict d) = Ok acc.
Proof.
  intros Hq Hr. unfold to_save_step, getitem, dict_getitem. rewrite Hq.
  simpl. unfold dict_mem. now rewrite Hr.
Qed.

Lemma factory_step_unretained reg to_save d s acc :
  dict_get "quantity" d = Some (VStr s) ->
  dict_get s to_save = None ->
  factory_step sink_factory year_min reg to_save acc (VDict d) = Ok acc.
Proof.
  intros Hq Hr. unfold factory_step, getitem, dict_getitem. rewrite Hq.
  simpl. unfold dict_mem. now rewrite Hr.
Qed.
End InitFacts.

(** C8: a specification whose quantity is not registered is ignored by the
    constructor: alone it yields a cache with no container and no sink,
    without error; among other specifications the constructor behaves as if
    it were not there; and the resulting cache has neither container nor
    sink for it, so that [cache] for it changes nothing and the loop of
    [consolidate_cache], which runs over the containers, never meets it. *)
Theorem init_unregistered_ignored (World : Type)
        (sink_factory : pyval -> string -> result (Sink World))
        (year_min : Dataset -> result Z)
        (d : list (string * pyval)) (s : string)
        (output_quantities : option Registry) (sectors : option (list Sector))
        (ps1 ps2 : list pyval) :
  dict_get "quantity" d = Some (VStr s) ->
  dict_get s (registry_or_default output_quantities) = None ->
  let init ps := OutputCache_init sink_factory year_min ps output_quantities sectors in
  (exists self, init [VDict d] = Ok self /\ to_save self = [] /\ factory self = []) /\
  init (ps1 ++ VDict d :: ps2) = init (ps1 ++ ps2) /\
  forall self,
    init (ps1 ++ VDict d :: ps2) = Ok self ->
    ~ In s (dict_keys (to_save self)) /\
    ~ In s (dict_keys (factory self)) /\
    forall align data w, cache align data (Some s) (self, w) = (Ok tt, (self, w)).
Proof.
  intros Hq Hr init.
  assert (Hskip : init (ps1 ++ VDict d :: ps2) = init (ps1 ++ ps2)).
  { unfold init, OutputCache_init.
    rewrite (foldM_skip _ ps1 ps2 (VDict d))
      by (intros; now apply to_save_step_unregistered with (s := s)).
    destruct (foldM (to_save_step (registry_or_default output_quantities))
                    (ps1 ++ ps2) []) as [ts|] eqn:Et; simpl;
      [|reflexivity].
    assert (Hs : dict_get s ts = None)
      by (now apply (to_save_registered _ s (ps1 ++ ps2) [] ts Hr)).
    rewrite (foldM_skip _ ps1 ps2 (VDict d))
      by (intros; now apply factory_step_unretained with (s := s)).
    reflexivity. }
  split; [|split; [exact Hskip|]].
  - unfold init, OutputCache_init. simpl.
    rewrite (to_save_step_unregistered _ d s [] Hq Hr). simpl.
    rewrite (factory_step_unretained _ sink_factory year_min _ [] d s [] Hq eq_refl).
    simpl. eexists. repeat split.
  - intros self Hi. unfold init, OutputCache_init in Hi.
    destruct (foldM (to_save_step (registry_or_default output_quantities))
                    (ps1 ++ VDict d :: ps2) []) as [ts|] eqn:Et;
      simpl in Hi; [|discriminate].
    destruct (foldM (factory_step sink_factory year_min
                                  (registry_or_default output_quantities) ts)
                    (ps1 ++ VDict d :: ps2) []) as [fs|] eqn:Ef;
      simpl in Hi; [|discriminate].
    inversion Hi; subst; simpl.
    assert (Hs : dict_get s ts = None)
      by (now apply (to_save_registered _ s _ [] ts Hr eq_refl Et)).
    assert (Hf : dict_get s fs = None)
      by (now apply (factory_retained _ sink_factory year_min _ ts s _ [] fs Hs eq_refl Ef)).
    split; [now apply dict_get_None_keys|].
    split; [now apply dict_get_None_keys|].
    intros align data w. unfold cache. simpl. now rewrite Hs.
Qed.

(** C10: the constructor indexes every specification with ["quantity"], so
    a lone string, which the class documentation and [_factory] accept as
    shorthand for a mapping, makes it raise [TypeError]. *)
Theorem init_bare_string_raises (World : Type)
        (sink_factory : pyval -> string -> result (Sink World))
        (year_min : Dataset -> result Z)
        (s : string) (rest : list pyval)
        (output_quantities : option Registry) (sectors : option (list Sector)) :
  OutputCache_init sink_factory year_min (VStr s :: rest) output_quantities sectors
  = Raise TypeError.
Proof. reflexivity. Qed.

(** The mapping the lone string stands for builds a container and a sink,
    and [_factory] itself takes the lone string. *)
Example init_mapping_succeeds :
  to_save example_cache = [("capacity", Dataset_new)] /\
  dict_keys (factory example_cache) = ["capacity"] /\
  exists f, _factory log_sink_factory year_2020 OUTPUT_QUANTITIES
                     [VStr "capacity"] "Cache" = Ok f.
Proof. repeat split. eexists. reflexivity. Qed.

(** ** Worked instances *)



Lemma cache_unconfigured_noop_witness :
  dict_get "lcoe" (to_save example_cache) = None /\
  cache xr_align (example_array None "a1" 7) (Some "lcoe") (example_cache, [])
  = (Ok tt, (example_cache, [])).
Proof.
  split; [reflexivity|].
  apply (cache_unconfigured_noop Log xr_align example_cache [] _ "lcoe").
  reflexivity.
Defined.

Lemma cache_missing_quantity_noop_witness :
  da_name (example_array None "a1" 5) = None /\
  cache xr_align (example_array None "a1" 5) None (example_cache, [])
  = (Ok tt, (example_cache, [])).
Proof.
  split; [reflexivity|].
  apply (cache_missing_quantity_noop Log xr_align (example_cache, [])).
  reflexivity.
Defined.

(** C9 as stated fails: the call does not raise. *)
Lemma cache_missing_quantity_does_not_raise :
  ~ exists e,
      fst (cache xr_align (example_array None "a1" 5) None (example_cache, []))
      = Raise e.
Proof. intros [e He]. discriminate He. Qed.

Lemma consolidate_empties_witness :
  exists self' w',
    consolidate_cache (filled example_cache, []) = (Ok tt, (self', w')) /\
    dict_keys (to_save self') = ["capacity"] /\
    dict_get "capacity" (to_save self') = Some Dataset_new /\
    length w' = 1.
Proof.
  destruct (consolidate_cache (filled example_cache, [])) as [r [self' w']] eqn:E.
  assert (Hr : r = Ok tt) by (now inversion E).
  assert (Hw : length w' = 1) by (now inversion E).
  subst r. exists self', w'.
  destruct (consolidate_empties Log _ _ _ _ E) as [Hk Hq].
  split; [reflexivity|]. split; [exact Hk|]. split; [|exact Hw].
  destruct (Hq "capacity") as [ds [Hd Hl]]; [discriminate|].
  rewrite Hd. destruct ds; [reflexivity|discriminate].
Defined.

Lemma consolidate_error_keeps_entries_witness :
  let self := filled failing_cache in
  let item :=
    ("capacity",
     [(0, {| var_dims := ["agent"]; var_elems := [([SStr "a1"], SNum 5)] |});
      (1, {| var_dims := ["agent"]; var_elems := [([SStr "a1"], SNaN)] |})]) in
  to_save self = [] ++ item :: [] /\
  flush_all self [] [] = (Ok tt, []) /\
  flush self item [] = (Raise (OtherError "disk full"), []) /\
  consolidate_cache (self, []) = (Raise (OtherError "disk full"), (self, [])).
Proof.
  intros self item.
  assert (Hs : to_save self = [] ++ item :: []) by reflexivity.
  assert (Hp : flush_all self [] [] = (Ok tt, [])) by reflexivity.
  assert (Hi : flush self item [] = (Raise (OtherError "disk full"), []))
    by reflexivity.
  split; [exact Hs|]. split; [exact Hp|]. split; [exact Hi|].
  exact (consolidate_error_keeps_entries Log self [] [] [] _ [] [] item Hs Hp Hi).
Defined.

Lemma init_unregistered_ignored_witness :
  let unknown := VDict [("quantity", VStr "emissions")] in
  OutputCache_init log_sink_factory year_2020 [unknown; capacity_param] None None
  = OutputCache_init log_sink_factory year_2020 [capacity_param] None None.
Proof.
  exact (proj1 (proj2 (init_unregistered_ignored
                         Log log_sink_factory year_2020
                         [("quantity", VStr "emissions")] "emissions"
                         None None [] [capacity_param] eq_refl eq_refl))).
Defined.

(** ** Agent metadata *)

Section SortFacts.
Context {A : Type} (le : A -> A -> bool).

Lemma insert_sorted_In (x y : A) (l : list A) :
  In x (insert_sorted le y l) <-> x = y \/ In x l.
Proof.
  induction l as [|z l IH]; simpl.
  - intuition.
  - destruct (le y z); simpl; [intuition|].
    rewrite IH. intuition.
Qed.

Lemma sorted_In (x : A) (l : list A) : In x (sorted le l) <-> In x l.
Proof.
  unfold sorted. induction l as [|y l IH]; simpl; [tauto|].
  rewrite insert_sorted_In, IH. intuition.
Qed.
End SortFacts.

Lemma find_last {A : Type} (f : A -> bool) (l : list A) (x : A) :
  find f (l ++ [x])
  = match find f l with
    | Some y => Some y
    | None => if f x then Some x else None
    end.
Proof.
  induction l as [|y l IH]; simpl; [reflexivity|].
  destruct (f y); auto.
Qed.

Section AgentFacts.
Variable sname : string.

Let step (info : dict string AgentRecord) (agent : Agent) :=
  dict_set (agent_uuid agent) (agent_record sname agent) info.

(** After the loop the record under [u] is that of the last agent visited
    with that uuid. *)
Lemma loop_records_last (u : string) (visited : list Agent) :
  forall info,
    dict_get u (fold_left step visited info)
    = match last_with_uuid u visited with
      | Some b => Some (agent_record sname b)
      | None => dict_get u info
      end.
Proof.
  unfold last_with_uuid.
  induction visited as [|x visited IH]; intros info; simpl; [reflexivity|].
  rewrite IH, find_last.
  destruct (find _ (rev visited)); [reflexivity|].
  unfold step. destruct (String.eqb (agent_uuid x) u) eqn:E.
  - apply String.eqb_eq in E. subst u. apply dict_get_set_same.
  - apply String.eqb_neq in E. now apply dict_get_set_other.
Qed.
End AgentFacts.

Lemma internal_lookup (sector : Sector) (u : string) :
  dict_get u (extract_agents_internal sector)
  = match last_with_uuid u (sorted name_le (agents_or_empty sector)) with
    | Some b => Some (agent_record (name_or_unnamed sector) b)
    | None => None
    end.
Proof.
  unfold extract_agents_internal. now rewrite loop_records_last.
Qed.

(** A sector without an agent of uuid [u] has no record for it. *)
Lemma internal_lookup_absent (sector : Sector) (u : string) :
  (forall b, In b (agents_or_empty sector) -> agent_uuid b <> u) ->
  dict_get u (extract_agents_internal sector) = None.
Proof.
  intros Hno. rewrite internal_lookup. unfold last_with_uuid.
  destruct (find _ _) as [b|] eqn:Ef; [|reflexivity].
  apply find_some in Ef. destruct Ef as [Hin Heq].
  apply in_rev, sorted_In in Hin. apply String.eqb_eq in Heq.
  now apply Hno in Hin.
Qed.

(** A sector with an agent of uuid [u] records one of its agents. *)
Lemma internal_lookup_present (sector : Sector) (a : Agent) :
  In a (agents_or_empty sector) ->
  exists b,
    last_with_uuid (agent_uuid a) (sorted name_le (agents_or_empty sector)) = Some b /\
    In b (agents_or_empty sector) /\
    agent_uuid b = agent_uuid a.
Proof.
  intros Hin. unfold last_with_uuid.
  destruct (find _ _) as [b|] eqn:Ef.
  - exists b. split; [reflexivity|].
    apply find_some in Ef. destruct Ef as [Hb Heq].
    apply in_rev, sorted_In in Hb. apply String.eqb_eq in Heq. auto.
  - exfalso.
    assert (Ha : In a (rev (sorted name_le (agents_or_empty sector))))
      by (now apply in_rev; rewrite rev_involutive; apply sorted_In).
    apply (find_none _ _ Ef) in Ha. simpl in Ha.
    rewrite String.eqb_refl in Ha. discriminate.
Qed.

(** The chain answers with the first map that holds the key. *)
Lemma ChainMap_get_first {V : Type} (k : string) (v : V)
      (before after : list (dict string V)) (m : dict string V) :
  (forall m', In m' before -> dict_get k m' = None) ->
  dict_get k m = Some v ->
  ChainMap_get k (before ++ m :: after) = Some v.
Proof.
  intros Hb Hm. induction before as [|m0 before IH]; simpl.
  - now rewrite Hm.
  - rewrite (Hb m0) by now left. apply IH. intros m' Hin. apply Hb. now right.
Qed.

Lemma ChainMap_new_nonempty {V : Type} (before after : list (dict string V))
      (m : dict string V) :
  ChainMap_new (before ++ m :: after) = before ++ m :: after.
Proof. destruct before; reflexivity. Qed.

(** C5: when [s] is the first sector of the list holding an agent with the
    uuid of [a], the Agent Info Record maps that uuid to the name and
    category of an agent [b] of [s] with that uuid (the last one visited
    in name order; [a] itself when the uuid is unique in [s]) and to the
    name of [s], or "unnamed" when [s] has none; sectors later in the list
    that hold the same uuid do not change the entry. *)
Theorem extract_agents_first_sector_wins
        (pre post : list Sector) (s : Sector) (a : Agent) :
  (forall s' b, In s' pre -> In b (agents_or_empty s') ->
                agent_uuid b <> agent_uuid a) ->
  In a (agents_or_empty s) ->
  exists b,
    last_with_uuid (agent_uuid a) (sorted name_le (agents_or_empty s)) = Some b /\
    In b (agents_or_empty s) /\
    agent_uuid b = agent_uuid a /\
    ((forall b', In b' (agents_or_empty s) ->
                 agent_uuid b' = agent_uuid a -> b' = a) -> b = a) /\
    ChainMap_get (agent_uuid a) (extract_agents (pre ++ s :: post))
    = Some [("agent", agent_name b);
            ("type", agent_category b);
            ("sector", match sector_name s with
                       | Some n => n
                       | None => "unnamed"
                       end)].
Proof.
  intros Hpre Hin.
  destruct (internal_lookup_present s a Hin) as (b & Hlast & Hb & Hu).
  exists b. repeat split; auto.
  unfold extract_agents.
  rewrite map_app. cbn [map]. rewrite ChainMap_new_nonempty.
  apply ChainMap_get_first.
  - intros m' Hm. apply in_map_iff in Hm. destruct Hm as (s' & <- & Hs').
    apply internal_lookup_absent. intros b' Hb'. now apply (Hpre s').
  - rewrite internal_lookup, Hlast. reflexivity.
Qed.

Lemma extract_agents_first_sector_wins_witness :
  let a := {| agent_uuid := "X"; agent_name := "A1"; agent_category := "New" |} in
  In a (agents_or_empty power_sector) /\
  ChainMap_get "X" (extract_agents [power_sector; nameless_sector])
  = Some [("agent", "A1"); ("type", "New"); ("sector", "power")].
Proof.
  intros a.
  assert (Hin : In a (agents_or_empty power_sector)) by (right; left; reflexivity).
  split; [exact Hin|].
  destruct (extract_agents_first_sector_wins [] [nameless_sector] power_sector a)
    as (b & Hlast & _ & _ & _ & Hget).
  - intros s' b [].
  - exact Hin.
  - injection Hlast as <-. exact Hget.
Defined.

(** A sector without a name is recorded as "unnamed". *)
Example extract_agents_unnamed :
  ChainMap_get "X" (extract_agents [nameless_sector; power_sector])
  = Some [("agent", "C3"); ("type", "Retrofit"); ("sector", "unnamed")].
Proof. reflexivity. Qed.

(** ** Consolidation of "capacity" *)

Lemma foldM_last {A B : Type} (f : A -> B -> result A) (l : list B) (x : B) (a : A) :
  foldM f (l ++ [x]) a = let* a' := foldM f l a in f a' x.
Proof.
  rewrite foldM_app. destruct (foldM f l a); simpl; [|reflexivity].
  destruct (f _ x); reflexivity.
Qed.

(** [reduce] merges in arrival order, the latest table last. *)
Lemma reduce_right_biased (first : DataFrame) (later : list DataFrame) :
  reduce merge_right (first :: later) = right_biased_merge (first :: later).
Proof.
  unfold right_biased_merge, reduce.
  induction later as [|latest later IH] using rev_ind.
  - reflexivity.
  - rewrite foldM_last, IH.
    assert (Hr : rev (first :: later ++ [latest]) = latest :: rev (first :: later)).
    { change (first :: later ++ [latest]) with ((first :: later) ++ [latest]).
      now rewrite rev_app_distr. }
    rewrite Hr. remember (rev (first :: later)) as earlier eqn:Er.
    destruct earlier as [|f earlier]; [|reflexivity].
    apply (f_equal (@length _)) in Er. rewrite length_rev in Er. discriminate.
Qed.

Lemma mem_col_index (c : string) (cols : list string) :
  mem c cols = true -> exists i, col_index c cols = Some i.
Proof.
  unfold mem. induction cols as [|c' cols IH]; simpl; [discriminate|].
  destruct (String.eqb c c'); simpl; [eauto|].
  intros Hm. destruct (IH Hm) as [i ->]. eauto.
Qed.

Lemma mem_app (c : string) (l1 l2 : list string) :
  mem c (l1 ++ l2) = mem c l1 || mem c l2.
Proof. apply existsb_app. Qed.

(** Two tables that share a column merge without error, and the merge
    still has the column. *)
Lemma merge_right_shared (q : string) (left right : DataFrame) :
  mem q (columns left) = true ->
  mem q (columns right) = true ->
  exists merged,
    merge_right left right = Ok merged /\ mem q (columns merged) = true.
Proof.
  intros Hl Hr. unfold merge_right.
  destruct (filter (fun c => mem c (columns right)) (columns left)) eqn:Eon.
  - exfalso.
    assert (Hin : In q (filter (fun c => mem c (columns right)) (columns left))).
    { apply filter_In. split; [|exact Hr].
      unfold mem in Hl. apply existsb_exists in Hl.
      destruct Hl as (c & Hc & He). apply String.eqb_eq in He. now subst. }
    rewrite Eon in Hin. contradiction.
  - eexists. split; [reflexivity|]. simpl. rewrite mem_app, Hl. reflexivity.
Qed.

Lemma foldM_merge_total (q : string) (later : list DataFrame) :
  forall acc,
    mem q (columns acc) = true ->
    Forall (fun f => mem q (columns f) = true) later ->
    exists merged,
      foldM merge_right later acc = Ok merged /\ mem q (columns merged) = true.
Proof.
  induction later as [|f later IH]; intros acc Ha Hl; simpl.
  - eauto.
  - inversion Hl as [|? ? Hf Hl']; subst.
    destruct (merge_right_shared q acc f Ha Hf) as (m & -> & Hm). simpl.
    now apply IH.
Qed.

Lemma frame_of_entry_has_quantity (q : string) (v : DataVar) :
  mem q (columns (frame_of_entry q v)) = true.
Proof.
  unfold frame_of_entry. simpl. rewrite mem_app. simpl.
  rewrite String.eqb_refl. apply orb_true_r.
Qed.

Lemma dict_get_NoDup {V : Type} (d : dict nat V) (k : nat) (v : V) :
  NoDup (dict_keys d) -> In (k, v) d -> dict_get k d = Some v.
Proof.
  induction d as [|[k0 v0] d IH]; simpl; [contradiction|].
  intros Hnd [Heq|Hin].
  - inversion Heq; subst. now rewrite Nat.eqb_refl.
  - inversion Hnd as [|? ? Hni Hnd']; subst.
    destruct (Nat.eqb k k0) eqn:E.
    + apply Nat.eqb_eq in E. subst k0. exfalso. apply Hni.
      change k with (fst (k, v)). now apply in_map.
    + now apply IH.
Qed.

(** The table of an entry the conversion accepts; the others are refused. *)
Lemma to_dataframe_entry (q : string) (k : nat) (v : DataVar) :
  to_dataframe q {| da_name := Some (LInt k); da_dims := var_dims v;
                    da_elems := var_elems v |}
  = if convertible q v then Ok (frame_of_entry q v) else Raise ValueError.
Proof.
  unfold to_dataframe, convertible, frame_of_entry. cbn [rename da_dims da_elems].
  destruct (var_dims v) as [|d dims]; [reflexivity|].
  destruct (mem q (d :: dims)); reflexivity.
Qed.

(** The tables [combine_arrays] builds are those of the entries, in
    arrival order; one entry that cannot be converted makes it raise. *)
Lemma combine_arrays_frames (cached : Dataset) (q : string) :
  NoDup (dict_keys cached) ->
  combine_arrays cached q
  = if all_convertible q cached
    then reduce merge_right (map (fun kv => frame_of_entry q (snd kv)) cached)
    else Raise ValueError.
Proof.
  intros Hnd. unfold combine_arrays, all_convertible.
  assert (Hm : forall l,
             (forall k v, In (k, v) l -> dict_get k cached = Some v) ->
             mapM (fun order =>
                     let* a := Dataset_getitem order cached in
                     to_dataframe q a) (dict_keys l)
             = if forallb (fun kv => convertible q (snd kv)) l
               then Ok (map (fun kv => frame_of_entry q (snd kv)) l)
               else Raise ValueError).
  { induction l as [|[k v] l IH]; intros Hl; [reflexivity|].
    unfold dict_keys in *. cbn [map mapM fst snd forallb].
    rewrite IH by (intros k' v' Hin; apply Hl; now right).
    unfold Dataset_getitem, dict_getitem.
    rewrite (Hl k v) by now left. cbn [bind].
    rewrite to_dataframe_entry.
    destruct (convertible q v); [|reflexivity]. cbn [bind andb].
    destruct (forallb (fun kv => convertible q (snd kv)) l); reflexivity. }
  rewrite Hm by (intros k v Hin; now apply dict_get_NoDup).
  destruct (forallb (fun kv => convertible q (snd kv)) cached); reflexivity.
Qed.

Lemma select_rows_filter (f : list scalar -> bool) (rs : list (list scalar)) :
  select_rows (map f rs) rs = filter f rs.
Proof.
  induction rs as [|r rs IH]; simpl; [reflexivity|].
  destruct (f r); now rewrite IH.
Qed.

(** Masking with [df[quantity] != 0] drops the rows whose cell is zero. *)
Lemma select_ne_zero (q : string) (df : DataFrame) :
  mem q (columns df) = true ->
  exists col,
    getcol q df = Ok col /\
    select (map ne_zero col) df = drop_zero_rows q df.
Proof.
  intros Hm. destruct (mem_col_index q (columns df) Hm) as [i Hi].
  unfold getcol, drop_zero_rows, select, cell. rewrite Hi.
  eexists. split; [reflexivity|]. f_equal.
  rewrite map_map. apply select_rows_filter.
Qed.

Lemma arrival_ordered_NoDup (ds : Dataset) :
  arrival_ordered ds -> NoDup (dict_keys ds).
Proof. intros ->. apply seq_NoDup. Qed.




(** [capacity] raises when an entry cannot be converted. *)
Lemma capacity_unconvertible (cached : Dataset) (agents : AgentInfo) :
  arrival_ordered cached ->
  all_convertible "capacity" cached = false ->
  capacity cached agents = Raise ValueError.
Proof.
  intros Hord Hc. unfold capacity.
  rewrite (combine_arrays_frames cached "capacity"
             (arrival_ordered_NoDup cached Hord)), Hc.
  reflexivity.
Qed.

(** [capacity] step by step on a non-empty container in arrival order
    whose entries can be converted: the merge succeeds and keeps the
    quantity column, the zero rows are dropped, the rows are enriched and
    the columns sorted. *)
Lemma capacity_pipeline (cached : Dataset) (agents : AgentInfo) :
  arrival_ordered cached ->
  cached <> [] ->
  all_convertible "capacity" cached = true ->
  exists merged,
    reduce merge_right (map (fun kv => frame_of_entry "capacity" (snd kv)) cached)
    = Ok merged /\
    mem "capacity" (columns merged) = true /\
    capacity cached agents
    = (let* enriched := enrich agents (drop_zero_rows "capacity" merged) in
       Ok (sort_columns enriched)).
Proof.
  intros Hord Hne Hconv.
  pose proof (combine_arrays_frames cached "capacity"
                (arrival_ordered_NoDup cached Hord)) as Hc.
  rewrite Hconv in Hc. clear Hconv.
  destruct cached as [|[k v] rest]; [congruence|]. cbn [map snd] in *.
  assert (Ht : exists merged,
             reduce merge_right
                    (frame_of_entry "capacity" v
                     :: map (fun kv => frame_of_entry "capacity" (snd kv)) rest)
             = Ok merged /\ mem "capacity" (columns merged) = true).
  { apply foldM_merge_total.
    - apply frame_of_entry_has_quantity.
    - apply Forall_forall. intros f Hf. apply in_map_iff in Hf.
      destruct Hf as (kv & <- & _). apply frame_of_entry_has_quantity. }
  destruct Ht as (merged & Hred & Hcol).
  destruct (select_ne_zero "capacity" merged Hcol) as (col & Hget & Hsel).
  exists merged. split; [exact Hred|]. split; [exact Hcol|].
  unfold capacity. rewrite Hc, Hred. cbn [bind]. rewrite Hget. cbn [bind].
  rewrite Hsel. reflexivity.
Qed.


(** The container of the witness is the one two [cache] calls leave. *)
Example two_entries_cached :
  dict_get "capacity"
    (to_save (fst (snd (run xr_align
                            (map (fun c => Cache (fst c) (snd c)) (two_arrays 0 3))
                            (example_cache, [])))))
  = Some (two_entries 0 3).
Proof. reflexivity. Qed.



(** C4 at an input where the display name of one agent is the uuid of
    another: the row cached for agent "A" is overwritten from the record of
    "A", matches the filter of "B" afterwards, and ends with the values of
    the record of "B". *)
Theorem capacity_enrichment_rematches :
  let agents := extract_agents [chained_sector] in
  ChainMap_keys agents = ["A"; "B"] /\
  ChainMap_get "A" agents
  = Some [("agent", "B"); ("type", "New"); ("sector", "grid")] /\
  capacity (one_entry "A") agents
  = Ok {| columns := ["agent"; "capacity"; "sector"; "type"];
          rows := [[SStr "C"; SNum 5; SStr "grid"; SStr "Retrofit"]] |}.
Proof. repeat split. Qed.

(** ** Cells under [loc] assignment *)

Lemma col_index_nth (c : string) (cols : list string) (i : nat) :
  col_index c cols = Some i -> i < length cols /\ nth i cols "" = c.
Proof.
  revert i. induction cols as [|c' cols IH]; intros i; simpl; [discriminate|].
  destruct (String.eqb c c') eqn:E.
  - apply String.eqb_eq in E. intros [= <-]. split; [lia|now subst].
  - destruct (col_index c cols) as [i'|]; [|discriminate].
    intros [= <-]. destruct (IH i' eq_refl). split; [lia|assumption].
Qed.

Lemma col_index_app_old (c key : string) (cols : list string) (i : nat) :
  col_index c cols = Some i -> col_index c (cols ++ [key]) = Some i.
Proof.
  revert i. induction cols as [|c' cols IH]; intros i; simpl; [discriminate|].
  destruct (String.eqb c c'); [auto|].
  destruct (col_index c cols) as [i'|]; [|discriminate].
  intros [= <-]. now rewrite (IH i' eq_refl).
Qed.

Lemma col_index_app_new (c key : string) (cols : list string) :
  col_index c cols = None ->
  col_index c (cols ++ [key])
  = if String.eqb c key then Some (length cols) else None.
Proof.
  induction cols as [|c' cols IH]; simpl.
  - destruct (String.eqb c key); reflexivity.
  - destruct (String.eqb c c'); [discriminate|].
    destruct (col_index c cols); [discriminate|].
    intros _. rewrite IH by reflexivity.
    destruct (String.eqb c key); reflexivity.
Qed.

Lemma nth_set_nth_same (i : nat) (v : scalar) (r : list scalar) :
  i < length r -> nth i (set_nth i v r) SNaN = v.
Proof.
  revert i. induction r as [|x r IH]; intros i Hi; simpl in *; [lia|].
  destruct i; simpl; [reflexivity|]. apply IH. lia.
Qed.

Lemma nth_set_nth_other (i i' : nat) (v : scalar) (r : list scalar) :
  i' <> i -> nth i' (set_nth i v r) SNaN = nth i' r SNaN.
Proof.
  revert i i'. induction r as [|x r IH]; intros i i' Hne; simpl.
  - reflexivity.
  - destruct i, i'; simpl; try reflexivity; [congruence|]. apply IH. congruence.
Qed.

Lemma length_set_nth (i : nat) (v : scalar) (r : list scalar) :
  length (set_nth i v r) = length r.
Proof.
  revert i. induction r as [|x r IH]; intros i; simpl; [reflexivity|].
  destruct i; simpl; [reflexivity|]. now rewrite IH.
Qed.

(** Overwriting the cell of an existing column. *)
Lemma cell_set_nth (cols : list string) (r : list scalar) (key : string)
      (i : nat) (v : scalar) (c : string) :
  col_index key cols = Some i ->
  length r = length cols ->
  cell cols (set_nth i v r) c = if String.eqb c key then v else cell cols r c.
Proof.
  intros Hk Hl. unfold cell.
  destruct (col_index_nth key cols i Hk) as [Hlt Hnth].
  destruct (String.eqb c key) eqn:E.
  - apply String.eqb_eq in E. subst c. rewrite Hk.
    apply nth_set_nth_same. lia.
  - apply String.eqb_neq in E.
    destruct (col_index c cols) as [i'|] eqn:Ec; [|reflexivity].
    apply nth_set_nth_other. intros ->.
    destruct (col_index_nth c cols i Ec) as [_ Hc]. congruence.
Qed.

(** Appending the cell of a new column. *)
Lemma cell_append (cols : list string) (r : list scalar) (key : string)
      (v : scalar) (c : string) :
  col_index key cols = None ->
  length r = length cols ->
  cell (cols ++ [key]) (r ++ [v]) c
  = if String.eqb c key then v else cell cols r c.
Proof.
  intros Hk Hl. unfold cell.
  destruct (col_index c cols) as [i|] eqn:Ec.
  - rewrite (col_index_app_old c key cols i Ec).
    destruct (col_index_nth c cols i Ec) as [Hlt _].
    rewrite app_nth1 by lia.
    destruct (String.eqb c key) eqn:E; [|reflexivity].
    apply String.eqb_eq in E. congruence.
  - rewrite (col_index_app_new c key cols Ec).
    destruct (String.eqb c key); [|reflexivity].
    rewrite app_nth2 by lia. rewrite Hl, Nat.sub_diag. reflexivity.
Qed.

Section MapMask.
Variable f : bool -> list scalar -> list scalar.

Lemma length_map_mask (mask : list bool) (rs : list (list scalar)) :
  length (map_mask f mask rs) = length rs.
Proof.
  revert mask. induction rs as [|r rs IH]; intros [|b mask]; simpl; auto.
Qed.

Lemma nth_map_mask (mask : list bool) (rs : list (list scalar)) (j : nat) :
  length mask = length rs ->
  j < length rs ->
  nth j (map_mask f mask rs) [] = f (nth j mask false) (nth j rs []).
Proof.
  revert mask j. induction rs as [|r rs IH]; intros [|b mask] j Hl Hj;
    simpl in *; try lia; try discriminate.
  destruct j; [reflexivity|]. apply IH; lia.
Qed.

Lemma Forall_map_mask (P Q : list scalar -> Prop) (mask : list bool)
      (rs : list (list scalar)) :
  (forall b r, P r -> Q (f b r)) ->
  length mask = length rs ->
  Forall P rs -> Forall Q (map_mask f mask rs).
Proof.
  intros Hf. revert mask. induction rs as [|r rs IH]; intros [|b mask] Hl Hp;
    simpl in *; try discriminate; [constructor|].
  inversion Hp; subst. constructor; [auto|]. apply IH; [lia|assumption].
Qed.
End MapMask.

Lemma nth_wf (df : DataFrame) (j : nat) :
  wf_frame df -> j < length (rows df) ->
  length (nth j (rows df) []) = length (columns df).
Proof.
  intros Hwf Hj. unfold wf_frame in Hwf. rewrite Forall_forall in Hwf.
  apply Hwf. now apply nth_In.
Qed.

(** What [df.loc[mask, key] = value] does to the cells of a table that has
    rows: the masked rows read [value] under [key], every other cell reads
    as before. *)
Lemma loc_set_spec (mask : list bool) (key : string) (v : scalar) (df : DataFrame) :
  wf_frame df ->
  length mask = length (rows df) ->
  rows df <> [] ->
  exists df',
    loc_set mask key v df = Ok df' /\
    wf_frame df' /\
    length (rows df') = length (rows df) /\
    (forall c, mem c (columns df) = true -> mem c (columns df') = true) /\
    forall j c,
      j < length (rows df) ->
      cell_at df' j c
      = if String.eqb c key && nth j mask false then v else cell_at df j c.
Proof.
  intros Hwf Hl Hne. unfold loc_set.
  destruct (col_index key (columns df)) as [i|] eqn:Ek.
  - eexists. split; [reflexivity|]. unfold wf_frame, cell_at. simpl.
    split; [|split; [apply length_map_mask|split; [auto|]]].
    + apply Forall_map_mask with (P := fun r => length r = length (columns df));
        [|assumption|exact Hwf].
      intros [|] r Hr; [now rewrite length_set_nth|exact Hr].
    + intros j c Hj. rewrite nth_map_mask by assumption.
      destruct (nth j mask false).
      * rewrite (cell_set_nth _ _ key i v c Ek (nth_wf df j Hwf Hj)).
        now rewrite andb_true_r.
      * now rewrite andb_false_r.
  - destruct (rows df) as [|r0 rs] eqn:Er; [congruence|]. rewrite <- Er in *.
    eexists. split; [reflexivity|]. unfold wf_frame, cell_at. simpl.
    split; [|split; [apply length_map_mask|split]].
    + apply Forall_map_mask with (P := fun r => length r = length (columns df));
        [|assumption|exact Hwf].
      intros b r Hr. rewrite !length_app, Hr. reflexivity.
    + intros c Hc. rewrite mem_app, Hc. reflexivity.
    + intros j c Hj. rewrite nth_map_mask by assumption.
      rewrite (cell_append _ _ key _ c Ek (nth_wf df j Hwf Hj)).
      destruct (String.eqb c key) eqn:E; simpl; [|reflexivity].
      destruct (nth j mask false); [reflexivity|].
      apply String.eqb_eq in E. subst c. unfold cell. now rewrite Ek.
Qed.

(** ** The enrichment loop of [capacity] *)

Lemma overlay_ext (items : list (string * string)) :
  forall (f g : string -> scalar) (c : string),
    (forall c', f c' = g c') -> overlay items f c = overlay items g c.
Proof.
  induction items as [|[k v] items IH]; intros f g c Hfg; simpl; [apply Hfg|].
  apply IH. intros c'. now rewrite Hfg.
Qed.

Lemma scalar_eqb_eq (a b : scalar) : scalar_eqb a b = true <-> a = b.
Proof.
  destruct a, b; simpl; try (split; [discriminate|congruence]).
  - tauto.
  - rewrite String.eqb_eq. split; congruence.
  - rewrite Z.eqb_eq. split; congruence.
Qed.

Lemma scalar_eqb_neq (a b : scalar) : a <> b -> scalar_eqb a b = false.
Proof.
  intros Hne. destruct (scalar_eqb a b) eqn:E; [|reflexivity].
  apply scalar_eqb_eq in E. contradiction.
Qed.

(** The inner loop: the items of one record written under one filter. *)
Lemma record_loop_spec (filter : list bool) (items : list (string * string)) :
  forall df,
    wf_frame df ->
    length filter = length (rows df) ->
    rows df <> [] ->
    exists df',
      foldM (fun data kv => loc_set filter (fst kv) (SStr (snd kv)) data) items df
      = Ok df' /\
      wf_frame df' /\
      length (rows df') = length (rows df) /\
      (forall c, mem c (columns df) = true -> mem c (columns df') = true) /\
      forall j c,
        j < length (rows df) ->
        cell_at df' j c
        = if nth j filter false then overlay items (cell_at df j) c
          else cell_at df j c.
Proof.
  induction items as [|[k v] items IH]; intros df Hwf Hl Hne; simpl.
  - exists df. repeat split; auto. intros j c _. now destruct (nth j filter false).
  - destruct (loc_set_spec filter k (SStr v) df Hwf Hl Hne)
      as (df1 & -> & Hwf1 & Hl1 & Hm1 & Hc1).
    simpl.
    destruct (IH df1 Hwf1) as (df' & Hf & Hwf' & Hl' & Hm' & Hc').
    { congruence. }
    { intros E. apply Hne. apply length_zero_iff_nil.
      rewrite <- Hl1, E. reflexivity. }
    exists df'. split; [exact Hf|]. split; [exact Hwf'|].
    split; [congruence|]. split; [auto|].
    intros j c Hj. rewrite Hc' by congruence.
    destruct (nth j filter false) eqn:Ej.
    + apply overlay_ext. intros c'. rewrite Hc1, Ej by assumption.
      now rewrite andb_true_r.
    + rewrite Hc1, Ej by assumption. now rewrite andb_false_r.
Qed.

Lemma nth_map_bool {A : Type} (f : A -> bool) (l : list A) (d : A) (j : nat) :
  j < length l -> nth j (map f l) false = f (nth j l d).
Proof.
  intros Hj. rewrite (nth_indep _ false (f d)) by now rewrite length_map.
  apply map_nth.
Qed.

(** One turn of the outer loop: the rows whose [agent] cell is [u] receive
    the items of the record of [u]. *)
Lemma enrich_agent_spec (agents : AgentInfo) (u : string) (record : AgentRecord)
      (df : DataFrame) :
  ChainMap_get u agents = Some record ->
  wf_frame df ->
  mem "agent" (columns df) = true ->
  rows df <> [] ->
  exists df',
    enrich_agent agents df u = Ok df' /\
    wf_frame df' /\
    length (rows df') = length (rows df) /\
    mem "agent" (columns df') = true /\
    forall j c,
      j < length (rows df) ->
      cell_at df' j c
      = if scalar_eqb (SStr u) (cell_at df j "agent")
        then overlay record (cell_at df j) c
        else cell_at df j c.
Proof.
  intros Hrec Hwf Hag Hne. unfold enrich_agent, getattr_col, ChainMap_getitem.
  destruct (mem_col_index "agent" (columns df) Hag) as [i Hi].
  rewrite Hi, Hrec. cbn [bind].
  set (filter := map (scalar_eqb (SStr u)) (map (fun r => nth i r SNaN) (rows df))).
  assert (Hl : length filter = length (rows df))
    by (unfold filter; now rewrite !length_map).
  destruct (record_loop_spec filter record df Hwf Hl Hne)
    as (df' & Hf & Hwf' & Hl' & Hm' & Hc').
  exists df'. split; [exact Hf|]. split; [exact Hwf'|]. split; [exact Hl'|].
  split; [auto|].
  intros j c Hj. rewrite (Hc' j c Hj).
  assert (Hn : nth j filter false = scalar_eqb (SStr u) (cell_at df j "agent")).
  { unfold filter. rewrite map_map.
    rewrite (nth_map_bool _ _ [] j Hj). unfold cell_at, cell. now rewrite Hi. }
  now rewrite Hn.
Qed.

(** The outer loop over a list of keys of the record. *)
Lemma enrich_keys_spec (agents : AgentInfo) (keys : list string) :
  forall df,
    (forall k, In k keys -> ChainMap_get k agents <> None) ->
    wf_frame df ->
    mem "agent" (columns df) = true ->
    rows df <> [] ->
    exists df',
      foldM (enrich_agent agents) keys df = Ok df' /\
      length (rows df') = length (rows df) /\
      forall j,
        j < length (rows df) ->
        ((forall k, In k keys -> cell_at df j "agent" <> SStr k) ->
         forall c, cell_at df' j c = cell_at df j c) /\
        (forall u record,
            NoDup keys ->
            In u keys ->
            cell_at df j "agent" = SStr u ->
            ChainMap_get u agents = Some record ->
            (forall k, In k (keys_after u keys) ->
                       overlay record (cell_at df j) "agent" <> SStr k) ->
            forall c, cell_at df' j c = overlay record (cell_at df j) c).
Proof.
  induction keys as [|k keys IH]; intros df Hkeys Hwf Hag Hne; simpl.
  - exists df. split; [reflexivity|]. split; [reflexivity|].
    intros j Hj. split; [reflexivity|]. intros u record _ [].
  - destruct (ChainMap_get k agents) as [rk|] eqn:Ek;
      [|exfalso; apply (Hkeys k); [now left|exact Ek]].
    destruct (enrich_agent_spec agents k rk df Ek Hwf Hag Hne)
      as (df1 & -> & Hwf1 & Hl1 & Hag1 & Hc1).
    cbn [bind].
    destruct (IH df1) as (df' & Hf & Hl' & Hrows); auto.
    { intros k' Hk'. apply Hkeys. now right. }
    { intros E. apply Hne. apply length_zero_iff_nil.
      rewrite <- Hl1, E. reflexivity. }
    exists df'. split; [exact Hf|]. split; [congruence|].
    intros j Hj.
    assert (Hj1 : j < length (rows df1)) by congruence.
    destruct (Hrows j Hj1) as [HA HB].
    split.
    + intros Habs c.
      assert (Hsame : forall c', cell_at df1 j c' = cell_at df j c').
      { intros c'. rewrite Hc1 by assumption.
        rewrite scalar_eqb_neq; [reflexivity|].
        intros E. apply (Habs k); [now left|congruence]. }
      rewrite HA; [apply Hsame|].
      intros k' Hk'. rewrite Hsame. apply Habs. now right.
    + intros u record Hnd Hu Hcell Hrec Hlater c.
      inversion Hnd as [|? ? Hnotin Hnd']; subst.
      simpl in Hlater. destruct (String.eqb k u) eqn:E.
      * apply String.eqb_eq in E. subst k.
        assert (Hr : rk = record) by congruence. subst rk.
        assert (Hover : forall c', cell_at df1 j c' = overlay record (cell_at df j) c').
        { intros c'. rewrite Hc1 by assumption.
          rewrite Hcell. simpl. now rewrite String.eqb_refl. }
        rewrite HA; [apply Hover|].
        intros k' Hk'. rewrite Hover. now apply Hlater.
      * apply String.eqb_neq in E.
        assert (Hsame : forall c', cell_at df1 j c' = cell_at df j c').
        { intros c'. rewrite Hc1 by assumption.
          rewrite scalar_eqb_neq; [reflexivity|]. congruence. }
        destruct Hu as [Hu|Hu]; [congruence|].
        rewrite (HB u record Hnd' Hu); auto.
        -- apply overlay_ext. exact Hsame.
        -- now rewrite Hsame.
        -- intros k' Hk'. rewrite (overlay_ext record _ _ "agent" Hsame).
           now apply Hlater.
Qed.

Section ChainMapFacts.
Context {K V : Type} `{EqKey K}.

Let add (d : list K) (k : K) : list K :=
  if existsb (keqb k) d then d else d ++ [k].

Lemma existsb_keqb (k : K) (d : list K) : existsb (keqb k) d = true <-> In k d.
Proof.
  rewrite existsb_exists. split.
  - intros (x & Hx & He). apply keqb_eq in He. now subst.
  - intros Hin. exists k. split; [exact Hin|apply keqb_refl].
Qed.

Lemma add_In (d : list K) (k x : K) : In x (add d k) <-> In x d \/ x = k.
Proof.
  unfold add. destruct (existsb (keqb k) d) eqn:E.
  - apply existsb_keqb in E. split; [auto|]. intros [Hin | ->]; assumption.
  - rewrite in_app_iff. simpl. intuition.
Qed.

Lemma add_NoDup (d : list K) (k : K) : NoDup d -> NoDup (add d k).
Proof.
  intros Hnd. unfold add. destruct (existsb (keqb k) d) eqn:E; [exact Hnd|].
  apply NoDup_app; [exact Hnd|repeat constructor; intros []|].
  intros x Hx [<-|[]].
  apply existsb_keqb in Hx. congruence.
Qed.

Lemma add_all_In (ks : list K) :
  forall d x, In x (fold_left add ks d) <-> In x d \/ In x ks.
Proof.
  induction ks as [|k ks IH]; intros d x; simpl; [tauto|].
  rewrite IH, add_In. intuition.
Qed.

Lemma add_all_NoDup (ks : list K) :
  forall d, NoDup d -> NoDup (fold_left add ks d).
Proof.
  induction ks as [|k ks IH]; intros d Hnd; simpl; [exact Hnd|].
  now apply IH, add_NoDup.
Qed.

Lemma chain_keys_In (ms : list (dict K V)) :
  forall d x,
    In x (fold_left (fun d m => fold_left add (dict_keys m) d) ms d)
    <-> In x d \/ exists m, In m ms /\ In x (dict_keys m).
Proof.
  induction ms as [|m ms IH]; intros d x; simpl.
  - split; [auto|]. intros [Hd|(m & [] & _)]. exact Hd.
  - rewrite IH, add_all_In. split.
    + intros [[Hd|Hm]|(m' & Hm' & Hx)]; eauto.
    + intros [Hd|(m' & [<-|Hm'] & Hx)]; eauto.
Qed.

Lemma chain_keys_NoDup (ms : list (dict K V)) :
  forall d,
    NoDup d ->
    NoDup (fold_left (fun d m => fold_left add (dict_keys m) d) ms d).
Proof.
  induction ms as [|m ms IH]; intros d Hnd; simpl; [exact Hnd|].
  now apply IH, add_all_NoDup.
Qed.

Lemma ChainMap_get_Some_iff (k : K) (cm : ChainMap K V) :
  ChainMap_get k cm <> None <-> exists m, In m cm /\ In k (dict_keys m).
Proof.
  induction cm as [|m cm IH]; simpl.
  - split; [congruence|]. intros (m & [] & _).
  - destruct (dict_get k m) eqn:Em.
    + split; [|discriminate]. intros _. exists m. split; [now left|].
      destruct (in_dec (fun x y => match keqb x y as b
                                         return keqb x y = b -> {x = y} + {x <> y} with
                                   | true => fun E => left (proj1 (keqb_eq x y) E)
                                   | false => fun E => right (keqb_false x y E)
                                   end eq_refl) k (dict_keys m)) as [Hin|Hn];
        [exact Hin|].
      apply dict_get_None_keys in Hn. congruence.
    + rewrite IH. apply dict_get_None_keys in Em. split.
      * intros (m' & Hm' & Hk). eauto.
      * intros (m' & [<-|Hm'] & Hk); [contradiction|eauto].
Qed.

(** [list(cm)] holds the keys [cm] answers for, each once. *)
Lemma ChainMap_keys_In (cm : ChainMap K V) (k : K) :
  In k (ChainMap_keys cm) <-> ChainMap_get k cm <> None.
Proof.
  rewrite ChainMap_get_Some_iff. split.
  - intros Hin. apply (proj1 (chain_keys_In (rev cm) [] k)) in Hin.
    destruct Hin as [[]|(m & Hm & Hk)].
    exists m. split; [now apply in_rev|exact Hk].
  - intros (m & Hm & Hk). apply (proj2 (chain_keys_In (rev cm) [] k)).
    right. exists m. split; [now apply in_rev in Hm|exact Hk].
Qed.

Lemma ChainMap_keys_NoDup (cm : ChainMap K V) : NoDup (ChainMap_keys cm).
Proof. apply chain_keys_NoDup. constructor. Qed.
End ChainMapFacts.

Lemma col_index_None_In (c : string) (cols : list string) :
  col_index c cols = None <-> ~ In c cols.
Proof.
  induction cols as [|c' cols IH]; simpl; [tauto|].
  destruct (String.eqb c c') eqn:E.
  - apply String.eqb_eq in E. subst. split; [discriminate|]. intros Hn. exfalso. auto.
  - apply String.eqb_neq in E.
    destruct (col_index c cols); split; try discriminate; try reflexivity.
    + intros Hn. exfalso. apply Hn. right.
      destruct (in_dec string_dec c cols) as [Hin|Hni]; [exact Hin|].
      apply IH in Hni. discriminate.
    + intros _ [Heq|Hin]; [congruence|]. now apply IH in Hin.
Qed.

(** Reordering the columns does not change what a row reads under a
    name. *)
Lemma cell_at_sort_columns (df : DataFrame) (j : nat) (c : string) :
  j < length (rows df) ->
  cell_at (sort_columns df) j c = cell_at df j c.
Proof.
  intros Hj. unfold sort_columns, select_columns, cell_at. simpl.
  set (cols := sorted String.leb (columns df)).
  rewrite (nth_indep _ [] (map (cell (columns df) []) cols))
    by now rewrite length_map.
  rewrite (map_nth (fun r => map (cell (columns df) r) cols)).
  set (r := nth j (rows df) []).
  unfold cell at 1. destruct (col_index c cols) as [i|] eqn:Ei.
  - destruct (col_index_nth c cols i Ei) as [Hlt Hnth].
    rewrite (nth_indep _ SNaN (cell (columns df) r "")) by now rewrite length_map.
    now rewrite map_nth, Hnth.
  - apply col_index_None_In in Ei. unfold cols in Ei. rewrite sorted_In in Ei.
    apply col_index_None_In in Ei. unfold cell. now rewrite Ei.
Qed.

Lemma length_sort_columns (df : DataFrame) :
  length (rows (sort_columns df)) = length (rows df).
Proof. unfold sort_columns, select_columns. simpl. apply length_map. Qed.

(** The enrichment of [capacity], row by row, on a table that has rows and
    an [agent] column: a row whose agent is a uuid of the record ends with
    the record's values under [agent], [type] and [sector], provided the
    display name it receives is not a uuid the loop visits afterwards; a
    row whose agent is not in the record reads as before under every
    column. *)
Theorem enrich_rows_without_rematch (agents : AgentInfo) (data : DataFrame) :
  wf_frame data ->
  mem "agent" (columns data) = true ->
  rows data <> [] ->
  exists enriched,
    enrich agents data = Ok enriched /\
    length (rows (sort_columns enriched)) = length (rows data) /\
    forall j,
      j < length (rows data) ->
      (forall u n t s,
          cell_at data j "agent" = SStr u ->
          ChainMap_get u agents = Some [("agent", n); ("type", t); ("sector", s)] ->
          ~ In n (keys_after u (ChainMap_keys agents)) ->
          cell_at (sort_columns enriched) j "agent" = SStr n /\
          cell_at (sort_columns enriched) j "type" = SStr t /\
          cell_at (sort_columns enriched) j "sector" = SStr s) /\
      ((forall u, cell_at data j "agent" = SStr u -> ChainMap_get u agents = None) ->
       forall c, cell_at (sort_columns enriched) j c = cell_at data j c).
Proof.
  intros Hwf Hag Hne. unfold enrich.
  destruct (enrich_keys_spec agents (ChainMap_keys agents) data)
    as (enriched & Hf & Hl & Hrows); auto.
  { intros k Hk. now apply ChainMap_keys_In. }
  exists enriched. split; [exact Hf|].
  split; [now rewrite length_sort_columns|].
  intros j Hj. destruct (Hrows j Hj) as [HA HB].
  assert (Hj' : j < length (rows enriched)) by congruence.
  split.
  - intros u n t s Hcell Hrec Hlater.
    assert (Hu : In u (ChainMap_keys agents))
      by (apply ChainMap_keys_In; congruence).
    assert (Hall : forall c,
               cell_at enriched j c
               = overlay [("agent", n); ("type", t); ("sector", s)]
                         (cell_at data j) c).
    { apply (HB u _ (ChainMap_keys_NoDup agents) Hu Hcell Hrec).
      intros k Hk. simpl. intros [= ->]. contradiction. }
    rewrite !cell_at_sort_columns by assumption.
    rewrite !Hall. simpl. auto.
  - intros Habs c. rewrite cell_at_sort_columns by assumption.
    apply HA. intros k Hk Hcell.
    apply ChainMap_keys_In in Hk. apply Hk. now apply Habs.
Qed.

(** ** The rows of the consolidated table *)

Lemma frame_of_entry_wf (q : string) (v : DataVar) :
  wf_entry v -> wf_frame (frame_of_entry q v).
Proof.
  unfold wf_entry, wf_frame, frame_of_entry. simpl. intros Hv.
  apply Forall_map. eapply Forall_impl; [|exact Hv].
  intros e He. simpl. rewrite !length_app, He. reflexivity.
Qed.

(** A merge always yields rows with one cell per column. *)
Lemma merge_right_wf (left right merged : DataFrame) :
  merge_right left right = Ok merged -> wf_frame merged.
Proof.
  unfold merge_right.
  destruct (filter (fun c => mem c (columns right)) (columns left));
    [discriminate|].
  intros [= <-]. unfold wf_frame. simpl.
  apply Forall_flat_map, Forall_forall. intros r _.
  match goal with
  | |- Forall _ (match ?m with _ => _ end) => destruct m
  end.
  - repeat constructor. now rewrite !length_app, !length_map.
  - constructor; [now rewrite !length_app, !length_map|].
    apply Forall_forall. intros x Hx. apply in_map_iff in Hx.
    destruct Hx as (l' & <- & _). now rewrite !length_app, !length_map.
Qed.

Lemma foldM_merge_wf (later : list DataFrame) :
  forall acc merged,
    wf_frame acc ->
    foldM merge_right later acc = Ok merged ->
    wf_frame merged.
Proof.
  induction later as [|f later IH]; intros acc merged Hwf Hf; simpl in Hf.
  - now inversion Hf; subst.
  - destruct (merge_right acc f) as [acc'|] eqn:Em; simpl in Hf; [|discriminate].
    apply (IH acc' merged); [|exact Hf]. now apply merge_right_wf in Em.
Qed.

Lemma drop_zero_rows_wf (q : string) (df : DataFrame) :
  wf_frame df -> wf_frame (drop_zero_rows q df).
Proof.
  unfold wf_frame, drop_zero_rows. simpl. intros Hwf.
  apply Forall_forall. intros r Hr. apply filter_In in Hr.
  rewrite Forall_forall in Hwf. now apply Hwf.
Qed.

(** X20: the rows [capacity] returns on a container whose entries can all
    be converted, against the merged table without its zero rows: when
    that table has rows and an [agent] column, [capacity]
    returns a table with as many rows, in which a row whose agent is a uuid
    of the record reads the record's values under [agent], [type] and
    [sector], provided the display name is not a uuid the loop visits
    afterwards, and a row whose agent is not in the record reads as
    before. *)
Theorem capacity_rows_without_rematch (cached : Dataset) (agents : AgentInfo) :
  arrival_ordered cached ->
  cached <> [] ->
  all_convertible "capacity" cached = true ->
  Forall (fun kv => wf_entry (snd kv)) cached ->
  exists merged,
    right_biased_merge (map (fun kv => frame_of_entry "capacity" (snd kv)) cached)
    = Ok merged /\
    let data := drop_zero_rows "capacity" merged in
    (mem "agent" (columns data) = true ->
     rows data <> [] ->
     exists table,
       capacity cached agents = Ok table /\
       length (rows table) = length (rows data) /\
       forall j,
         j < length (rows data) ->
         (forall u n t s,
             cell_at data j "agent" = SStr u ->
             ChainMap_get u agents
             = Some [("agent", n); ("type", t); ("sector", s)] ->
             ~ In n (keys_after u (ChainMap_keys agents)) ->
             cell_at table j "agent" = SStr n /\
             cell_at table j "type" = SStr t /\
             cell_at table j "sector" = SStr s) /\
         ((forall u, cell_at data j "agent" = SStr u ->
                     ChainMap_get u agents = None) ->
          forall c, cell_at table j c = cell_at data j c)).
Proof.
  intros Hord Hne Hconv Hwf.
  destruct (capacity_pipeline cached agents Hord Hne Hconv)
    as (merged & Hred & _ & Hcap).
  destruct cached as [|[k v] rest]; [congruence|]. cbn [map snd] in *.
  exists merged. split; [now rewrite <- reduce_right_biased|].
  intros Hag Hrows.
  set (data := drop_zero_rows "capacity" merged) in *.
  assert (Hm : wf_frame merged).
  { unfold reduce in Hred. apply (foldM_merge_wf _ _ _ (frame_of_entry_wf _ v
      ltac:(now inversion Hwf)) Hred). }
  destruct (enrich_rows_without_rematch agents data
              (drop_zero_rows_wf "capacity" merged Hm) Hag Hrows)
    as (enriched & He & Hl & Hcells).
  exists (sort_columns enriched). split; [|split; assumption].
  rewrite Hcap, He. reflexivity.
Qed.

(** With distinct uuids and display names the row cached for "X" reads the
    record of "X". *)
Example capacity_enriches_row :
  capacity (one_entry "X") (extract_agents [power_sector; nameless_sector])
  = Ok {| columns := ["agent"; "capacity"; "sector"; "type"];
          rows := [[SStr "A1"; SNum 5; SStr "power"; SStr "New"]] |}.
Proof. reflexivity. Qed.

(** * Further properties of the cache *)

(** ** The flush on empty containers and after it *)

Section FlushFacts.
Variable World : Type.
Variable align : Dataset -> DataArray -> result DataVar.
Implicit Types (self : OutputCache World) (w : World).

Lemma OutputCache_eta self :
  {| agents := agents self; to_save := to_save self; factory := factory self |}
  = self.
Proof. now destruct self. Qed.

(** The loop passes over empty containers without calling anything. *)
Lemma flush_all_skips_empty self (items : list (string * Dataset)) w :
  flush_all self items w
  = flush_all self
      (filter (fun item => negb (Nat.eqb (Dataset_len (snd item)) 0)) items) w.
Proof.
  revert w. induction items as [|item items IH]; intros w; [reflexivity|].
  cbn [filter flush_all].
  destruct (Nat.eqb (Dataset_len (snd item)) 0) eqn:E; cbn [negb].
  - unfold flush. rewrite E. apply IH.
  - cbn [flush_all].
    destruct (flush self item w) as [[[]|e] w']; [apply IH|reflexivity].
Qed.

Lemma reset_fresh (d : dict string Dataset) :
  Forall (fun kv => snd kv = Dataset_new) d ->
  map (fun kv => (fst kv, Dataset_new)) d = d.
Proof.
  induction 1 as [|[k ds] d Hk _ IH]; simpl; [reflexivity|].
  simpl in Hk. subst ds. now rewrite IH.
Qed.

Lemma filter_nonempty_fresh (d : dict string Dataset) :
  Forall (fun kv => snd kv = Dataset_new) d ->
  filter (fun item => negb (Nat.eqb (Dataset_len (snd item)) 0)) d = [].
Proof.
  induction 1 as [|[k ds] d Hk _ IH]; simpl; [reflexivity|].
  simpl in Hk. subst ds. exact IH.
Qed.

(** The keys of a dictionary after an assignment. *)
Lemma dict_keys_dict_set {V : Type} (k : string) (v : V) (d : dict string V) :
  dict_keys (dict_set k v d)
  = if dict_mem k d then dict_keys d else dict_keys d ++ [k].
Proof.
  unfold dict_mem. induction d as [|[k0 v0] d IH]; simpl; [reflexivity|].
  destruct (String.eqb k k0) eqn:E; simpl; [reflexivity|].
  rewrite IH. destruct (dict_get k d); reflexivity.
Qed.

(** What one [cache] call leaves alone. *)
Lemma cache_keeps data quantity self w :
  let st' := snd (cache align data quantity (self, w)) in
  agents (fst st') = agents self /\
  factory (fst st') = factory self /\
  snd st' = w /\
  dict_keys (to_save (fst st')) = dict_keys (to_save self).
Proof.
  unfold cache. simpl.
  destruct (effective_quantity data quantity) as [[q|n]|]; simpl; auto.
  destruct (dict_get q (to_save self)) eqn:Eq; simpl; auto.
  destruct (Dataset_setitem align _ _ _); simpl; auto.
  repeat split. rewrite dict_keys_dict_set. unfold dict_mem. now rewrite Eq.
Qed.

(** What one [consolidate_cache] call leaves alone, raising or not. *)
Lemma consolidate_keeps self w :
  let st' := snd (consolidate_cache (self, w)) in
  agents (fst st') = agents self /\
  factory (fst st') = factory self /\
  dict_keys (to_save (fst st')) = dict_keys (to_save self).
Proof.
  unfold consolidate_cache. simpl.
  destruct (flush_all self (to_save self) w) as [[[]|e] w']; simpl; auto.
  repeat split. unfold dict_keys. now rewrite map_map.
Qed.

(** The configuration of the cache is the same after any sequence of
    calls, whether one of them raised or not. *)
Lemma run_keeps (cs : list (call)) :
  forall self w,
    let st' := snd (run align cs (self, w)) in
    agents (fst st') = agents self /\
    factory (fst st') = factory self /\
    dict_keys (to_save (fst st')) = dict_keys (to_save self).
Proof.
  induction cs as [|c cs IH]; intros self w; simpl; auto.
  assert (Hc : let st1 := snd (run_call align c (self, w)) in
               agents (fst st1) = agents self /\
               factory (fst st1) = factory self /\
               dict_keys (to_save (fst st1)) = dict_keys (to_save self)).
  { destruct c as [data quantity|]; simpl.
    - destruct (cache_keeps data quantity self w) as (H1 & H2 & _ & H4). auto.
    - apply consolidate_keeps. }
  destruct (run_call align c (self, w)) as [[[]|e] [self1 w1]]; simpl in *; auto.
  destruct (IH self1 w1) as (H1 & H2 & H3).
  destruct Hc as (G1 & G2 & G3). repeat split; congruence.
Qed.
End FlushFacts.

(** X1: when every container is empty, [consolidate_cache] returns
    normally and leaves the object and the world as they were: no quantity
    function and no sink is called. *)
Theorem consolidate_all_empty_noop (World : Type) (self : OutputCache World)
        (w : World) :
  Forall (fun kv => snd kv = Dataset_new) (to_save self) ->
  consolidate_cache (self, w) = (Ok tt, (self, w)).
Proof.
  intros Hall. unfold consolidate_cache. simpl.
  rewrite flush_all_skips_empty, (filter_nonempty_fresh _ Hall). simpl.
  now rewrite (reset_fresh _ Hall), OutputCache_eta.
Qed.

Lemma consolidate_all_empty_noop_witness :
  Forall (fun kv => snd kv = Dataset_new) (to_save example_cache) /\
  consolidate_cache (example_cache, []) = (Ok tt, (example_cache, [])).
Proof.
  assert (H : Forall (fun kv => snd kv = Dataset_new) (to_save example_cache))
    by (repeat constructor).
  split; [exact H|]. exact (consolidate_all_empty_noop Log example_cache [] H).
Defined.

(** X2: after [consolidate_cache] has returned, the arrival index of every
    configured quantity starts again at zero: the [cache] calls that follow,
    run up to the first that xarray refuses, leave the container of [q]
    with the indices 0, 1, 2, ... in order, one per call made for [q] that
    returned. *)
Theorem arrival_index_resets (World : Type)
        (align : Dataset -> DataArray -> result DataVar)
        (self self' : OutputCache World)
        (w w' : World) (q : string) (calls : list (DataArray * option string)) :
  consolidate_cache (self, w) = (Ok tt, (self', w')) ->
  dict_get q (to_save self) <> None ->
  let r := run align (map (fun c => Cache (fst c) (snd c)) calls) (self', w') in
  exists ds done,
    dict_get q (to_save (fst (snd r))) = Some ds /\
    dict_keys ds = seq 0 (Dataset_len ds) /\
    Dataset_len ds = length (payloads_for q done) /\
    ((fst r = Ok tt /\ done = calls) \/
     exists c rest e, calls = done ++ c :: rest /\ fst r = Raise e).
Proof.
  intros Hc Hq.
  assert (Hfresh : dict_get q (to_save self') = Some Dataset_new).
  { unfold consolidate_cache in Hc. simpl in Hc.
    destruct (flush_all self (to_save self) w) as [[[]|e] w0]; [|discriminate].
    inversion Hc; subst. simpl. rewrite dict_get_reset.
    destruct (dict_get q (to_save self)); congruence. }
  destruct (run_cache_container World align q calls self' w' Dataset_new
                                Hfresh eq_refl)
    as (ds & done & Hd & Hk & Hl & Hcase).
  exists ds, done. split; [exact Hd|]. split; [exact Hk|]. split; [exact Hl|].
  destruct Hcase as [Hok|(c & rest & e & Hcalls & Hr & _)]; [now left|].
  right. now exists c, rest, e.
Qed.

Lemma arrival_index_resets_witness :
  let self := filled example_cache in
  exists self' w',
    consolidate_cache (self, []) = (Ok tt, (self', w')) /\
    dict_get "capacity" (to_save self) <> None /\
    exists ds,
      dict_get "capacity"
        (to_save (fst (snd (run xr_align
                                (map (fun c => Cache (fst c) (snd c)) example_calls)
                                (self', w'))))) = Some ds /\
      dict_keys ds = [0; 1].
Proof.
  intros self.
  destruct (consolidate_cache (self, [])) as [r [self' w']] eqn:E.
  assert (Hr : r = Ok tt) by (now inversion E). subst r.
  assert (Hq : dict_get "capacity" (to_save self) <> None) by discriminate.
  assert (Hrun : fst (run xr_align
                          (map (fun c => Cache (fst c) (snd c)) example_calls)
                          (self', w')) = Ok tt)
    by (now inversion E).
  exists self', w'. split; [reflexivity|]. split; [exact Hq|].
  destruct (arrival_index_resets Log xr_align self self' [] w' "capacity"
                                 example_calls E Hq)
    as (ds & done & Hd & Hk & Hl & Hcase).
  exists ds. split; [exact Hd|].
  assert (Hdone : done = example_calls).
  { destruct Hcase as [[_ ->]|(c & rest & e & _ & Hr)]; [reflexivity|].
    rewrite Hrun in Hr. discriminate Hr. }
  subst done. rewrite Hk, Hl. reflexivity.
Defined.

(** X3: a [cache] call changes nothing but the container of the quantity
    it is made for: the agent record, the sinks, the world, the set and
    order of configured quantities and every other container stay as they
    were. *)
Theorem cache_frame (World : Type)
        (align : Dataset -> DataArray -> result DataVar)
        (self : OutputCache World) (w : World)
        (data : DataArray) (quantity : option string) :
  let st' := snd (cache align data quantity (self, w)) in
  agents (fst st') = agents self /\
  factory (fst st') = factory self /\
  snd st' = w /\
  dict_keys (to_save (fst st')) = dict_keys (to_save self) /\
  forall q,
    effective_quantity data quantity <> Some (LStr q) ->
    dict_get q (to_save (fst st')) = dict_get q (to_save self).
Proof.
  destruct (cache_keeps World align data quantity self w) as (H1 & H2 & H3 & H4).
  repeat split; auto.
  intros q Hq. now apply cache_other.
Qed.

(** ** What the constructor builds *)

Lemma dict_mem_true {V : Type} (k : string) (d : dict string V) :
  dict_mem k d = true <-> dict_get k d <> None.
Proof. unfold dict_mem. destruct (dict_get k d); split; congruence. Qed.

Lemma dict_mem_set {V : Type} (k k' : string) (v : V) (d : dict string V) :
  dict_mem k' (dict_set k v d) = String.eqb k k' || dict_mem k' d.
Proof.
  unfold dict_mem. destruct (String.eqb k k') eqn:E.
  - apply String.eqb_eq in E. subst. now rewrite dict_get_set_same.
  - apply String.eqb_neq in E. now rewrite dict_get_set_other.
Qed.

Lemma dict_mem_keys {V : Type} (k : string) (d : dict string V) :
  dict_mem k d = existsb (String.eqb k) (dict_keys d).
Proof.
  unfold dict_mem. induction d as [|[k0 v0] d IH]; simpl; [reflexivity|].
  destruct (String.eqb k k0); simpl; auto.
Qed.

Section InitMore.
Variable World : Type.
Variable sink_factory : pyval -> string -> result (Sink World).
Variable year_min : Dataset -> result Z.

Let fstep := factory_step sink_factory year_min.
Let mk := _factory sink_factory year_min.

(** A turn of the first comprehension that does not raise read a string
    under "quantity", and kept it when it is registered. *)
Lemma to_save_step_Ok (reg : Registry) acc p acc' :
  to_save_step reg acc p = Ok acc' ->
  exists k,
    getitem "quantity" p = Ok (VStr k) /\
    acc' = if dict_mem k reg then dict_set k Dataset_new acc else acc.
Proof.
  unfold to_save_step.
  destruct (getitem "quantity" p) as [[k|m]|]; simpl; try discriminate.
  destruct (dict_mem k reg) eqn:Er; simpl; intros [= <-];
    exists k; rewrite Er; split; reflexivity.
Qed.

Lemma factory_step_Ok (reg : Registry) (T : dict string Dataset) acc p acc' :
  fstep reg T acc p = Ok acc' ->
  exists k,
    getitem "quantity" p = Ok (VStr k) /\
    if dict_mem k T
    then exists f, mk reg [p] "Cache" = Ok f /\ acc' = dict_set k f acc
    else acc' = acc.
Proof.
  unfold fstep, mk, factory_step.
  destruct (getitem "quantity" p) as [[k|m]|]; simpl; try discriminate.
  destruct (dict_mem k T) eqn:Et; simpl.
  - destruct (_factory sink_factory year_min reg [p] "Cache") as [f|];
      simpl; [|discriminate].
    intros [= <-]. exists k. rewrite Et. split; [reflexivity|].
    exists f. split; reflexivity.
  - intros [= <-]. exists k. rewrite Et. split; reflexivity.
Qed.

(** A registered quantity named by a specification has a container. *)
Lemma to_save_retains (reg : Registry) (k : string) (ps : list pyval) :
  forall acc ts,
    foldM (to_save_step reg) ps acc = Ok ts ->
    dict_get k acc <> None \/
    (dict_mem k reg = true /\
     exists p, In p ps /\ getitem "quantity" p = Ok (VStr k)) ->
    dict_get k ts <> None.
Proof.
  induction ps as [|p ps IH]; intros acc ts Hf Hk; simpl in Hf.
  - inversion Hf; subst. destruct Hk as [Hk|(_ & p & [] & _)]. exact Hk.
  - destruct (to_save_step reg acc p) as [acc'|] eqn:Es; simpl in Hf;
      [|discriminate].
    apply (IH acc' ts Hf).
    destruct (to_save_step_Ok reg acc p acc' Es) as (k' & Hq & ->).
    destruct Hk as [Hk|(Hr & p' & [<-|Hin] & Hp')].
    + left. destruct (dict_mem k' reg); [|exact Hk].
      apply dict_mem_true. rewrite dict_mem_set.
      apply dict_mem_true in Hk. rewrite Hk. apply orb_true_r.
    + left. assert (k' = k) by congruence. subst k'. rewrite Hr.
      now rewrite dict_get_set_same.
    + right. eauto.
Qed.

(** A container comes from a specification naming a registered quantity. *)
Lemma to_save_origin (reg : Registry) (k : string) (ps : list pyval) :
  forall acc ts,
    foldM (to_save_step reg) ps acc = Ok ts ->
    dict_get k ts <> None ->
    dict_get k acc <> None \/
    (dict_mem k reg = true /\
     exists p, In p ps /\ getitem "quantity" p = Ok (VStr k)).
Proof.
  induction ps as [|p ps IH]; intros acc ts Hf Hk; simpl in Hf.
  - inversion Hf; subst. now left.
  - destruct (to_save_step reg acc p) as [acc'|] eqn:Es; simpl in Hf;
      [|discriminate].
    destruct (to_save_step_Ok reg acc p acc' Es) as (k' & Hq & ->).
    destruct (IH _ ts Hf Hk) as [Hacc|(Hr & p' & Hin & Hp')].
    + destruct (dict_mem k' reg) eqn:Er; [|now left].
      destruct (String.eqb k' k) eqn:E.
      * apply String.eqb_eq in E. subst k'. right. split; [exact Er|].
        exists p. split; [now left|exact Hq].
      * apply String.eqb_neq in E. left.
        now rewrite dict_get_set_other in Hacc.
    + right. split; [exact Hr|]. exists p'. split; [now right|exact Hp'].
Qed.

(** The two comprehensions keep the same specifications, so they build
    the same keys in the same order. *)
Lemma comprehensions_agree (reg : Registry) (T : dict string Dataset)
      (ps : list pyval) :
  (forall p k, In p ps -> getitem "quantity" p = Ok (VStr k) ->
               dict_mem k reg = dict_mem k T) ->
  forall acc1 acc2 ts fs,
    dict_keys acc1 = dict_keys acc2 ->
    foldM (to_save_step reg) ps acc1 = Ok ts ->
    foldM (fstep reg T) ps acc2 = Ok fs ->
    dict_keys ts = dict_keys fs.
Proof.
  induction ps as [|p ps IH]; intros Hps acc1 acc2 ts fs Hk H1 H2;
    simpl in H1, H2.
  - inversion H1; inversion H2; subst. exact Hk.
  - destruct (to_save_step reg acc1 p) as [a1|] eqn:E1; simpl in H1;
      [|discriminate].
    destruct (fstep reg T acc2 p) as [a2|] eqn:E2; simpl in H2; [|discriminate].
    apply (IH (fun p' k' Hin => Hps p' k' (or_intror Hin)) a1 a2 ts fs);
      try assumption.
    destruct (to_save_step_Ok reg acc1 p a1 E1) as (k & Hq & ->).
    destruct (factory_step_Ok reg T acc2 p a2 E2) as (k' & Hq' & Hcase).
    assert (k' = k) by congruence. subst k'.
    rewrite (Hps p k (or_introl eq_refl) Hq).
    destruct (dict_mem k T); [|now subst].
    destruct Hcase as (f & _ & ->).
    rewrite !dict_keys_dict_set.
    assert (Hm : dict_mem k acc1 = dict_mem k acc2)
      by (now rewrite !dict_mem_keys, Hk).
    rewrite Hm, Hk. reflexivity.
Qed.

Lemma init_Ok ps output_quantities sectors self :
  OutputCache_init sink_factory year_min ps output_quantities sectors = Ok self ->
  let reg := registry_or_default output_quantities in
  foldM (to_save_step reg) ps [] = Ok (to_save self) /\
  foldM (fstep reg (to_save self)) ps [] = Ok (factory self).
Proof.
  unfold OutputCache_init, fstep.
  destruct (foldM (to_save_step (registry_or_default output_quantities)) ps [])
    as [ts|] eqn:E1; simpl; [|discriminate].
  destruct (foldM (factory_step sink_factory year_min
                                (registry_or_default output_quantities) ts) ps [])
    as [fs|] eqn:E2; simpl; [|discriminate].
  intros [= <-]. simpl. split; [reflexivity|exact E2].
Qed.

(** Registered and retained coincide on the quantities the specifications
    name. *)
Lemma registered_iff_retained (reg : Registry) (ps : list pyval)
      (ts : dict string Dataset) :
  foldM (to_save_step reg) ps [] = Ok ts ->
  forall p k, In p ps -> getitem "quantity" p = Ok (VStr k) ->
              dict_mem k reg = dict_mem k ts.
Proof.
  intros Hf p k Hin Hq. destruct (dict_mem k reg) eqn:Er.
  - symmetry. apply dict_mem_true. apply (to_save_retains reg k ps [] ts Hf).
    right. split; [exact Er|]. eauto.
  - symmetry. unfold dict_mem in *.
    destruct (dict_get k reg) eqn:Eg; [discriminate|].
    now rewrite (to_save_registered reg k ps [] ts Eg eq_refl Hf).
Qed.

Lemma init_keys_agree ps output_quantities sectors self :
  OutputCache_init sink_factory year_min ps output_quantities sectors = Ok self ->
  dict_keys (factory self) = dict_keys (to_save self).
Proof.
  intros Hi. destruct (init_Ok ps output_quantities sectors self Hi) as [H1 H2].
  symmetry.
  apply (comprehensions_agree (registry_or_default output_quantities)
           (to_save self) ps
           (registered_iff_retained _ ps (to_save self) H1)
           [] [] _ _ eq_refl H1 H2).
Qed.

Lemma to_save_all_fresh (reg : Registry) (ps : list pyval) :
  forall acc ts,
    Forall (fun kv => snd kv = Dataset_new) acc ->
    foldM (to_save_step reg) ps acc = Ok ts ->
    Forall (fun kv => snd kv = Dataset_new) ts.
Proof.
  induction ps as [|p ps IH]; intros acc ts Ha Hf; simpl in Hf.
  - now inversion Hf; subst.
  - destruct (to_save_step reg acc p) as [acc'|] eqn:Es; simpl in Hf;
      [|discriminate].
    apply (IH acc' ts); [|exact Hf].
    destruct (to_save_step_Ok reg acc p acc' Es) as (k & _ & ->).
    destruct (dict_mem k reg); [|exact Ha].
    clear - Ha. induction Ha as [|[k0 v0] acc Hk Hacc IH]; simpl.
    + repeat constructor.
    + destruct (String.eqb k k0); constructor; auto.
Qed.
End InitMore.

Section InitTheorems.
Variable World : Type.
Variable sink_factory : pyval -> string -> result (Sink World).
Variable year_min : Dataset -> result Z.

Let init := OutputCache_init sink_factory year_min.
Let fstep := factory_step sink_factory year_min.
Let mk := _factory sink_factory year_min.

Lemma plain_spec_getitem (p : pyval) :
  plain_spec p -> exists k, getitem "quantity" p = Ok (VStr k).
Proof.
  intros (d & k & -> & Hq). exists k. unfold getitem, dict_getitem.
  now rewrite Hq.
Qed.

(** The first comprehension goes through on plain specifications. *)
Lemma to_save_total (reg : Registry) (ps : list pyval) :
  Forall plain_spec ps ->
  forall acc, exists ts, foldM (to_save_step reg) ps acc = Ok ts.
Proof.
  induction 1 as [|p ps Hp _ IH]; intros acc; simpl; [eauto|].
  destruct (plain_spec_getitem p Hp) as [k Hk].
  unfold to_save_step at 1. rewrite Hk. simpl.
  destruct (dict_mem k reg); simpl; apply IH.
Qed.

(** What [_factory] returns for one plain specification of a registered
    quantity: the year of the container, then the registered function
    without keyword arguments, then the sink of the specification. *)
Lemma factory_of_plain (reg : Registry) (d : list (string * pyval))
      (k : string) (fn : QuantityFn) (f : Callable World) :
  dict_get "quantity" d = Some (VStr k) ->
  dict_get k reg = Some fn ->
  mk reg [VDict d] "Cache" = Ok f ->
  exists sink,
    sink_factory (VDict d) "Cache" = Ok sink /\
    f = save_multiple_outputs year_min [fun market agents => fn market agents []]
                              [sink].
Proof.
  intros Hq Hr. unfold mk, _factory. cbn [map mapM].
  unfold _quantity_factory, pop, dict_getitem. rewrite Hq. cbn [bind fst snd].
  unfold lookup, dict_getitem. rewrite Hr. cbn [bind fst snd].
  destruct (sink_factory (VDict d) "Cache") as [sink|]; cbn [bind];
    [|discriminate].
  intros [= <-]. eauto.
Qed.

(** An entry of [self.factory] was built from a specification naming its
    key. *)
Lemma factory_origin (reg : Registry) (T : dict string Dataset) (k : string)
      (ps : list pyval) :
  forall acc fs f,
    foldM (fstep reg T) ps acc = Ok fs ->
    dict_get k fs = Some f ->
    dict_get k acc = Some f \/
    exists p, In p ps /\ getitem "quantity" p = Ok (VStr k) /\
              mk reg [p] "Cache" = Ok f.
Proof.
  induction ps as [|p ps IH]; intros acc fs f Hf Hk; simpl in Hf.
  - inversion Hf; subst. now left.
  - destruct (fstep reg T acc p) as [acc'|] eqn:Es; simpl in Hf; [|discriminate].
    destruct (factory_step_Ok World sink_factory year_min reg T acc p acc' Es)
      as (k' & Hq & Hcase).
    destruct (IH acc' fs f Hf Hk) as [Hacc|(p' & Hin & Hq' & Hm)].
    + destruct (dict_mem k' T).
      * destruct Hcase as (f' & Hmk & ->).
        destruct (String.eqb k' k) eqn:E.
        -- apply String.eqb_eq in E. subst k'.
           rewrite dict_get_set_same in Hacc. inversion Hacc; subst.
           right. exists p. repeat split; auto. now left.
        -- apply String.eqb_neq in E.
           rewrite dict_get_set_other in Hacc by exact E. now left.
      * subst acc'. now left.
    + right. exists p'. repeat split; auto. now right.
Qed.

(** Turns for other quantities leave the sink of [k] alone. *)
Lemma factory_other_keeps (reg : Registry) (T : dict string Dataset)
      (k : string) (ps : list pyval) :
  forall acc fs,
    (forall p, In p ps -> getitem "quantity" p <> Ok (VStr k)) ->
    foldM (fstep reg T) ps acc = Ok fs ->
    dict_get k fs = dict_get k acc.
Proof.
  induction ps as [|p ps IH]; intros acc fs Hps Hf; simpl in Hf.
  - now inversion Hf; subst.
  - destruct (fstep reg T acc p) as [acc'|] eqn:Es; simpl in Hf; [|discriminate].
    rewrite (IH acc' fs (fun p' Hin => Hps p' (or_intror Hin)) Hf).
    destruct (factory_step_Ok World sink_factory year_min reg T acc p acc' Es)
      as (k' & Hq & Hcase).
    destruct (dict_mem k' T); [|now subst].
    destruct Hcase as (f & _ & ->).
    apply dict_get_set_other. intros ->. now apply (Hps p (or_introl eq_refl)).
Qed.

(** The flush of a constructed cache, spelled out. *)
Lemma factory_entry_spec ps output_quantities sectors self k f fn :
  init ps output_quantities sectors = Ok self ->
  dict_get k (factory self) = Some f ->
  dict_get k (registry_or_default output_quantities) = Some fn ->
  exists p sink,
    In p ps /\
    getitem "quantity" p = Ok (VStr k) /\
    sink_factory p "Cache" = Ok sink /\
    f = save_multiple_outputs year_min [fun market agents => fn market agents []]
                              [sink].
Proof.
  intros Hi Hk Hr.
  destruct (init_Ok World sink_factory year_min ps output_quantities sectors self Hi)
    as [_ H2].
  destruct (factory_origin _ _ k ps [] _ f H2 Hk)
    as [Habs|(p & Hin & Hq & Hmk)]; [discriminate|].
  destruct p as [s|d]; [discriminate|].
  unfold getitem, dict_getitem in Hq.
  destruct (dict_get "quantity" d) as [q|] eqn:Ed; [|discriminate].
  inversion Hq; subst q.
  destruct (factory_of_plain _ d k fn f Ed Hr Hmk) as (sink & Hs & ->).
  exists (VDict d), sink. repeat split; auto.
  unfold getitem, dict_getitem. now rewrite Ed.
Qed.
End InitTheorems.

(** X4: in a cache the constructor has built, every container is empty
    and the sinks are keyed exactly like the containers, in the same
    order. *)
Theorem init_invariants (World : Type)
        (sink_factory : pyval -> string -> result (Sink World))
        (year_min : Dataset -> result Z)
        (ps : list pyval) (output_quantities : option Registry)
        (sectors : option (list Sector)) (self : OutputCache World) :
  OutputCache_init sink_factory year_min ps output_quantities sectors = Ok self ->
  Forall (fun kv => snd kv = Dataset_new) (to_save self) /\
  dict_keys (factory self) = dict_keys (to_save self).
Proof.
  intros Hi. split.
  - destruct (init_Ok World sink_factory year_min ps output_quantities sectors
                      self Hi) as [H1 _].
    apply (to_save_all_fresh _ ps [] _ (Forall_nil _) H1).
  - now apply (init_keys_agree World sink_factory year_min ps output_quantities
                               sectors).
Qed.

Lemma init_invariants_witness :
  OutputCache_init log_sink_factory year_2020 [capacity_param] None None
  = Ok example_cache /\
  Forall (fun kv => snd kv = Dataset_new) (to_save example_cache) /\
  dict_keys (factory example_cache) = dict_keys (to_save example_cache).
Proof.
  assert (Hi : OutputCache_init log_sink_factory year_2020 [capacity_param] None None
               = Ok example_cache) by reflexivity.
  split; [exact Hi|].
  exact (init_invariants Log log_sink_factory year_2020 [capacity_param]
                         None None example_cache Hi).
Defined.

(** X5: on a cache the constructor has built, after any sequence of
    [cache] and [consolidate_cache] calls, every container still has its
    sink: the lookup [self.factory[quantity]] of the flush cannot raise
    [KeyError]. *)
Theorem factory_lookup_never_fails (World : Type)
        (sink_factory : pyval -> string -> result (Sink World))
        (year_min : Dataset -> result Z)
        (ps : list pyval) (output_quantities : option Registry)
        (sectors : option (list Sector)) (self : OutputCache World)
        (align : Dataset -> DataArray -> result DataVar)
        (cs : list (call)) (w : World) :
  OutputCache_init sink_factory year_min ps output_quantities sectors = Ok self ->
  let self' := fst (snd (run align cs (self, w))) in
  dict_keys (to_save self') = dict_keys (to_save self) /\
  forall item,
    In item (to_save self') ->
    exists f, dict_getitem (fst item) (factory self') = Ok f.
Proof.
  intros Hi self'.
  destruct (run_keeps World align cs self w) as (_ & Hf & Hk).
  fold self' in Hf, Hk.
  split; [exact Hk|].
  intros item Hin. unfold dict_getitem.
  destruct (dict_get (fst item) (factory self')) as [f|] eqn:Eg; [eauto|].
  exfalso. apply dict_get_None_keys in Eg. apply Eg.
  rewrite Hf, (init_keys_agree World sink_factory year_min ps output_quantities
                               sectors self Hi), <- Hk.
  now apply in_map.
Qed.

Lemma factory_lookup_never_fails_witness :
  OutputCache_init log_sink_factory year_2020 [capacity_param] None None
  = Ok example_cache /\
  forall item,
    In item (to_save (filled example_cache)) ->
    exists f, dict_getitem (fst item) (factory (filled example_cache)) = Ok f.
Proof.
  assert (Hi : OutputCache_init log_sink_factory year_2020 [capacity_param] None None
               = Ok example_cache) by reflexivity.
  split; [exact Hi|].
  exact (proj2 (factory_lookup_never_fails
                  Log log_sink_factory year_2020 [capacity_param] None None
                  example_cache xr_align
                  (map (fun c => Cache (fst c) (snd c)) example_calls) [] Hi)).
Defined.

(** X6: the constructor succeeds when every specification is a mapping
    with a string under "quantity" and the sink factory accepts each of
    them; unregistered quantities do not stand in the way. *)
Theorem init_succeeds (World : Type)
        (sink_factory : pyval -> string -> result (Sink World))
        (year_min : Dataset -> result Z)
        (ps : list pyval) (output_quantities : option Registry)
        (sectors : option (list Sector)) :
  Forall plain_spec ps ->
  (forall p, In p ps -> exists sink, sink_factory p "Cache" = Ok sink) ->
  exists self,
    OutputCache_init sink_factory year_min ps output_quantities sectors = Ok self.
Proof.
  intros Hplain Hsink. unfold OutputCache_init.
  set (reg := registry_or_default output_quantities).
  destruct (to_save_total reg ps Hplain []) as [ts Hts]. rewrite Hts. cbn [bind].
  assert (Hf : forall acc,
             exists fs, foldM (factory_step sink_factory year_min reg ts) ps acc
                        = Ok fs).
  { assert (Hreg : forall k, dict_mem k ts = true -> dict_get k reg <> None).
    { intros k Hk Hr. apply dict_mem_true in Hk. apply Hk.
      exact (to_save_registered reg k ps [] ts Hr eq_refl Hts). }
    clear Hts. induction ps as [|p ps IH]; intros acc; simpl; [eauto|].
    inversion Hplain as [|? ? Hp Hps]; subst.
    destruct Hp as (d & k & -> & Hq).
    unfold factory_step at 1, getitem, dict_getitem. rewrite Hq. cbn [bind contains].
    destruct (dict_mem k ts) eqn:Ek; cbn [bind as_key].
    - destruct (dict_get k reg) as [fn|] eqn:Er;
        [|exfalso; now apply (Hreg k Ek)].
      destruct (Hsink (VDict d) (or_introl eq_refl)) as [sink Hs].
      unfold _factory. cbn [map mapM].
      unfold _quantity_factory, pop, dict_getitem. rewrite Hq. cbn [bind fst snd].
      unfold lookup, dict_getitem. rewrite Er. cbn [bind fst snd].
      rewrite Hs. cbn [bind].
      apply IH; [exact Hps|]. intros p Hin. apply Hsink. now right.
    - apply IH; [exact Hps|]. intros p Hin. apply Hsink. now right. }
  destruct (Hf []) as [fs Hfs]. rewrite Hfs. cbn [bind]. eauto.
Qed.

Lemma init_succeeds_witness :
  let ps := [capacity_param; VDict [("quantity", VStr "emissions")]] in
  Forall plain_spec ps /\
  exists self, OutputCache_init log_sink_factory year_2020 ps None None = Ok self.
Proof.
  intros ps.
  assert (Hp : Forall plain_spec ps).
  { repeat constructor; eexists; eexists; split; reflexivity. }
  split; [exact Hp|].
  apply (init_succeeds Log log_sink_factory year_2020 ps None None Hp).
  intros p _. exists log_sink. reflexivity.
Defined.

(** X7: a quantity has a container in a constructed cache exactly when it
    is registered and some specification names it. *)
Theorem init_retains_iff (World : Type)
        (sink_factory : pyval -> string -> result (Sink World))
        (year_min : Dataset -> result Z)
        (ps : list pyval) (output_quantities : option Registry)
        (sectors : option (list Sector)) (self : OutputCache World) (k : string) :
  OutputCache_init sink_factory year_min ps output_quantities sectors = Ok self ->
  (dict_get k (to_save self) <> None <->
   dict_get k (registry_or_default output_quantities) <> None /\
   exists p, In p ps /\ getitem "quantity" p = Ok (VStr k)).
Proof.
  intros Hi.
  destruct (init_Ok World sink_factory year_min ps output_quantities sectors self Hi)
    as [H1 _].
  split.
  - intros Hk.
    destruct (to_save_origin _ k ps [] _ H1 Hk) as [Habs|(Hr & Hp)];
      [now simpl in Habs|].
    split; [now apply dict_mem_true|exact Hp].
  - intros (Hr & Hp). apply (to_save_retains _ k ps [] _ H1).
    right. split; [now apply dict_mem_true|exact Hp].
Qed.

Lemma init_retains_iff_witness :
  OutputCache_init log_sink_factory year_2020 [capacity_param] None None
  = Ok example_cache /\
  dict_get "capacity" (to_save example_cache) <> None /\
  dict_get "lcoe" (to_save example_cache) = None.
Proof.
  assert (Hi : OutputCache_init log_sink_factory year_2020 [capacity_param] None None
               = Ok example_cache) by reflexivity.
  split; [exact Hi|]. split.
  - apply (init_retains_iff Log log_sink_factory year_2020 [capacity_param]
                            None None example_cache "capacity" Hi).
    split; [discriminate|]. exists capacity_param. split; [now left|reflexivity].
  - destruct (dict_get "lcoe" (to_save example_cache)) eqn:E; [|reflexivity].
    exfalso.
    assert (Hn : dict_get "lcoe" (to_save example_cache) <> None) by congruence.
    apply (init_retains_iff Log log_sink_factory year_2020 [capacity_param]
                            None None example_cache "lcoe" Hi) in Hn.
    destruct Hn as (_ & p & [<-|[]] & Hq). discriminate Hq.
Defined.

(** X8: when several specifications name the same registered quantity,
    the cache keeps one container and the sink of the last of them. *)
Theorem init_last_sink_wins (World : Type)
        (sink_factory : pyval -> string -> result (Sink World))
        (year_min : Dataset -> result Z)
        (ps1 ps2 : list pyval) (p : pyval) (k : string)
        (output_quantities : option Registry)
        (sectors : option (list Sector)) (self : OutputCache World) :
  OutputCache_init sink_factory year_min (ps1 ++ p :: ps2) output_quantities sectors
  = Ok self ->
  getitem "quantity" p = Ok (VStr k) ->
  dict_get k (registry_or_default output_quantities) <> None ->
  (forall p', In p' ps2 -> getitem "quantity" p' <> Ok (VStr k)) ->
  exists f,
    _factory sink_factory year_min (registry_or_default output_quantities)
             [p] "Cache" = Ok f /\
    dict_get k (factory self) = Some f /\
    dict_get k (to_save self) = Some Dataset_new.
Proof.
  intros Hi Hq Hr Hlater.
  set (reg := registry_or_default output_quantities) in *.
  destruct (init_Ok World sink_factory year_min _ output_quantities sectors self Hi)
    as [H1 H2]. fold reg in H1, H2.
  assert (Hmem : dict_mem k (to_save self) = true).
  { rewrite <- (registered_iff_retained reg _ _ H1 p k
                  ltac:(apply in_or_app; right; now left) Hq).
    now apply dict_mem_true. }
  rewrite foldM_app in H2.
  destruct (foldM (factory_step sink_factory year_min reg (to_save self)) ps1 [])
    as [a1|]; cbn [bind] in H2; [|discriminate].
  cbn [foldM] in H2.
  destruct (factory_step sink_factory year_min reg (to_save self) a1 p)
    as [a2|] eqn:Es; cbn [bind] in H2; [|discriminate].
  destruct (factory_step_Ok World sink_factory year_min reg _ a1 p a2 Es)
    as (k' & Hq' & Hcase).
  assert (k' = k) by congruence. subst k'. rewrite Hmem in Hcase.
  destruct Hcase as (f & Hmk & ->).
  exists f. split; [exact Hmk|]. split.
  - rewrite (factory_other_keeps World sink_factory year_min reg _ k ps2 _ _
               Hlater H2).
    apply dict_get_set_same.
  - apply dict_mem_true in Hmem.
    destruct (dict_get k (to_save self)) as [ds|] eqn:Eg; [|congruence].
    f_equal.
    exact (init_containers_fresh World sink_factory year_min _ output_quantities
                                 sectors self Hi k ds Eg).
Qed.

Lemma init_last_sink_wins_witness :
  let first := VDict [("quantity", VStr "capacity"); ("sink", VStr "csv")] in
  let last := VDict [("quantity", VStr "capacity"); ("sink", VStr "nc")] in
  let pick (p : pyval) (s : string) : result (Sink Log) :=
    match p with
    | VDict [_; (_, VStr "nc")] => Ok failing_sink
    | _ => Ok log_sink
    end in
  exists self f,
    OutputCache_init pick year_2020 [first; last] None None = Ok self /\
    _factory pick year_2020 OUTPUT_QUANTITIES [last] "Cache" = Ok f /\
    dict_get "capacity" (factory self) = Some f /\
    to_save self = [("capacity", Dataset_new)].
Proof.
  intros first last pick.
  destruct (OutputCache_init pick year_2020 [first; last] None None)
    as [self|] eqn:Hi; [|discriminate Hi].
  destruct (init_last_sink_wins Log pick year_2020 [first] [] last "capacity"
                                None None self Hi eq_refl)
    as (f & Hmk & Hf & _).
  - discriminate.
  - intros p' [].
  - exists self, f. split; [reflexivity|]. split; [exact Hmk|].
    split; [exact Hf|]. now inversion Hi.
Defined.

(** X9: a specification that is a mapping without the key "quantity"
    makes the constructor raise [KeyError], whatever follows it, when the
    specifications before it are plain. *)
Theorem init_missing_quantity_raises (World : Type)
        (sink_factory : pyval -> string -> result (Sink World))
        (year_min : Dataset -> result Z)
        (ps1 ps2 : list pyval) (d : list (string * pyval))
        (output_quantities : option Registry) (sectors : option (list Sector)) :
  Forall plain_spec ps1 ->
  dict_get "quantity" d = None ->
  OutputCache_init sink_factory year_min (ps1 ++ VDict d :: ps2)
                   output_quantities sectors
  = Raise KeyError.
Proof.
  intros Hplain Hq. unfold OutputCache_init.
  rewrite foldM_app.
  destruct (to_save_total (registry_or_default output_quantities) ps1 Hplain [])
    as [acc ->].
  cbn [bind foldM]. unfold to_save_step at 1, getitem, dict_getitem.
  now rewrite Hq.
Qed.

Lemma init_missing_quantity_raises_witness :
  Forall plain_spec [capacity_param] /\
  OutputCache_init log_sink_factory year_2020
                   [capacity_param; VDict [("sink", VStr "csv")]; capacity_param]
                   None None
  = Raise KeyError.
Proof.
  assert (Hp : Forall plain_spec [capacity_param]).
  { repeat constructor. eexists. eexists. split; reflexivity. }
  split; [exact Hp|].
  exact (init_missing_quantity_raises Log log_sink_factory year_2020
           [capacity_param] [capacity_param] [("sink", VStr "csv")]
           None None Hp eq_refl).
Defined.

(** X10: a specification whose "quantity" is itself a mapping (a name with
    keyword arguments) makes the constructor raise [TypeError], since the
    mapping is tested for membership in the registry; [_quantity_factory]
    on the same specification returns the registered function of the name
    with the other entries of the mapping bound as keyword arguments. *)
Theorem init_mapping_quantity_raises (World : Type)
        (sink_factory : pyval -> string -> result (Sink World))
        (year_min : Dataset -> result Z)
        (ps1 ps2 : list pyval) (d m : list (string * pyval))
        (output_quantities : option Registry) (sectors : option (list Sector)) :
  Forall plain_spec ps1 ->
  dict_get "quantity" d = Some (VDict m) ->
  OutputCache_init sink_factory year_min (ps1 ++ VDict d :: ps2)
                   output_quantities sectors
  = Raise TypeError /\
  forall (registry : Registry) (name : string) (fn : QuantityFn),
    dict_get "name" m = Some (VStr name) ->
    dict_get name registry = Some fn ->
    _quantity_factory (VDict d) registry
    = Ok (fun market agents =>
            fn market agents
               (filter (fun kv => negb (String.eqb "name" (fst kv))) m)).
Proof.
  intros Hplain Hq. split.
  - unfold OutputCache_init. rewrite foldM_app.
    destruct (to_save_total (registry_or_default output_quantities) ps1 Hplain [])
      as [acc ->].
    cbn [bind foldM]. unfold to_save_step at 1, getitem, dict_getitem.
    now rewrite Hq.
  - intros registry name fn Hn Hr.
    unfold _quantity_factory, pop, dict_getitem. rewrite Hq. cbn [bind fst snd].
    rewrite Hn. cbn [bind fst snd]. unfold lookup, dict_getitem.
    now rewrite Hr.
Qed.

Lemma init_mapping_quantity_raises_witness :
  let spec := VDict [("quantity",
                      VDict [("name", VStr "capacity"); ("rounding", VStr "4")])] in
  Forall plain_spec [capacity_param] /\
  OutputCache_init log_sink_factory year_2020 [capacity_param; spec] None None
  = Raise TypeError.
Proof.
  intros spec.
  assert (Hp : Forall plain_spec [capacity_param]).
  { repeat constructor. eexists. eexists. split; reflexivity. }
  split; [exact Hp|].
  exact (proj1 (init_mapping_quantity_raises Log log_sink_factory year_2020
                  [capacity_param] []
                  [("quantity",
                    VDict [("name", VStr "capacity"); ("rounding", VStr "4")])]
                  [("name", VStr "capacity"); ("rounding", VStr "4")]
                  None None Hp eq_refl)).
Defined.

(** ** What a flush does *)

Section FlushSpec.
Variable World : Type.
Variable sink_factory : pyval -> string -> result (Sink World).
Variable year_min : Dataset -> result Z.

(** The flush of a configured quantity of a constructed cache, with its
    registered function and the sink of one of its specifications. *)
Lemma flush_entry ps output_quantities sectors (self : OutputCache World)
      (k : string) (ds : Dataset) (w : World) :
  OutputCache_init sink_factory year_min ps output_quantities sectors = Ok self ->
  dict_get k (to_save self) <> None ->
  Dataset_len ds <> 0 ->
  exists fn p sink,
    dict_get k (registry_or_default output_quantities) = Some fn /\
    In p ps /\
    getitem "quantity" p = Ok (VStr k) /\
    sink_factory p "Cache" = Ok sink /\
    flush self (k, ds) w
    = match year_min ds with
      | Raise e => (Raise e, w)
      | Ok year =>
          match fn ds (agents self) [] with
          | Raise e => (Raise e, w)
          | Ok table =>
              match sink table year w with
              | (Ok _, w') => (Ok tt, w')
              | (Raise e, w') => (Raise e, w')
              end
          end
      end.
Proof.
  intros Hi Hk Hlen.
  destruct (init_Ok World sink_factory year_min ps output_quantities sectors self Hi)
    as [H1 _].
  destruct (to_save_origin _ k ps [] _ H1 Hk) as [Habs|(Hr & _)];
    [now simpl in Habs|].
  apply dict_mem_true in Hr.
  destruct (dict_get k (registry_or_default output_quantities)) as [fn|] eqn:Er;
    [|congruence].
  destruct (dict_get k (factory self)) as [f|] eqn:Ef.
  - destruct (factory_entry_spec World sink_factory year_min ps output_quantities
                                 sectors self k f fn Hi Ef Er)
      as (p & sink & Hin & Hq & Hs & ->).
    exists fn, p, sink. repeat split; auto.
    unfold flush. cbn [fst snd].
    destruct (Nat.eqb (Dataset_len ds) 0) eqn:E;
      [apply Nat.eqb_eq in E; contradiction|].
    unfold dict_getitem. rewrite Ef.
    unfold save_multiple_outputs. destruct (year_min ds) as [year|]; [|reflexivity].
    cbn [combine save_each].
    destruct (fn ds (agents self) []) as [table|]; [|reflexivity].
    destruct (sink table year w) as [[[]|e] w']; reflexivity.
  - exfalso. apply dict_get_None_keys in Ef. apply Ef.
    rewrite (init_keys_agree World sink_factory year_min ps output_quantities
                             sectors self Hi).
    destruct (dict_get k (to_save self)) as [ds0|] eqn:Eg; [|congruence].
    clear - Eg. induction (to_save self) as [|[k0 v0] d IH]; simpl in *;
      [discriminate|].
    destruct (String.eqb k k0) eqn:E.
    + apply String.eqb_eq in E. now left.
    + right. now apply IH.
Qed.
End FlushSpec.

(** X11: on a constructed cache, flushing a non-empty container of a
    configured quantity reads the year off the container, calls the
    registered function of the quantity on the container and the agent
    record without keyword arguments, and hands its result to the sink of a
    specification of that quantity; an error of the year or of the function
    leaves the world untouched, the sink is then not called. *)
Theorem flush_spelled_out (World : Type)
        (sink_factory : pyval -> string -> result (Sink World))
        (year_min : Dataset -> result Z)
        (ps : list pyval) (output_quantities : option Registry)
        (sectors : option (list Sector)) (self : OutputCache World)
        (k : string) (ds : Dataset) (w : World) :
  OutputCache_init sink_factory year_min ps output_quantities sectors = Ok self ->
  dict_get k (to_save self) <> None ->
  Dataset_len ds <> 0 ->
  exists fn p sink,
    dict_get k (registry_or_default output_quantities) = Some fn /\
    In p ps /\
    getitem "quantity" p = Ok (VStr k) /\
    sink_factory p "Cache" = Ok sink /\
    flush self (k, ds) w
    = match year_min ds with
      | Raise e => (Raise e, w)
      | Ok year =>
          match fn ds (agents self) [] with
          | Raise e => (Raise e, w)
          | Ok table =>
              match sink table year w with
              | (Ok _, w') => (Ok tt, w')
              | (Raise e, w') => (Raise e, w')
              end
          end
      end.
Proof. apply flush_entry. Qed.

Lemma flush_spelled_out_witness :
  OutputCache_init log_sink_factory year_2020 [capacity_param] None None
  = Ok example_cache /\
  flush example_cache ("capacity", one_entry "X") []
  = (Ok tt,
     [(OFrame (Some "capacity")
              {| columns := ["agent"; "capacity"];
                 rows := [[SStr "X"; SNum 5]] |}, 2020%Z)]).
Proof.
  assert (Hi : OutputCache_init log_sink_factory year_2020 [capacity_param] None None
               = Ok example_cache) by reflexivity.
  split; [exact Hi|].
  destruct (flush_spelled_out Log log_sink_factory year_2020 [capacity_param]
                              None None example_cache "capacity"
                              (one_entry "X") [] Hi)
    as (fn & p & sink & Hr & _ & _ & Hs & Hf); try discriminate.
  rewrite Hf. injection Hr as <-. injection Hs as <-. reflexivity.
Defined.

(** X12: with the default registry, the placeholders "production" and
    "lcoe" take one positional argument while the flush passes two: on a
    constructed cache the flush of a non-empty container of either always
    raises and never reaches the sink. *)
Theorem flush_placeholder_raises (World : Type)
        (sink_factory : pyval -> string -> result (Sink World))
        (year_min : Dataset -> result Z)
        (ps : list pyval) (sectors : option (list Sector))
        (self : OutputCache World) (k : string) (ds : Dataset) (w : World) :
  OutputCache_init sink_factory year_min ps None sectors = Ok self ->
  dict_get k (to_save self) <> None ->
  k = "production" \/ k = "lcoe" ->
  Dataset_len ds <> 0 ->
  exists e,
    flush self (k, ds) w = (Raise e, w) /\
    (forall year, year_min ds = Ok year -> e = TypeError).
Proof.
  intros Hi Hk Hplace Hlen.
  destruct (flush_entry World sink_factory year_min ps None sectors self k ds w
                        Hi Hk Hlen)
    as (fn & p & sink & Hr & _ & _ & _ & ->).
  assert (Hfn : fn ds (agents self) [] = Raise TypeError).
  { destruct Hplace as [-> | ->]; injection Hr as <-; reflexivity. }
  rewrite Hfn.
  destruct (year_min ds) as [year|e].
  - exists TypeError. split; [reflexivity|]. reflexivity.
  - exists e. split; [reflexivity|]. discriminate.
Qed.

Lemma flush_placeholder_raises_witness :
  let self :=
    match OutputCache_init log_sink_factory year_2020
                           [VDict [("quantity", VStr "production")]] None None with
    | Ok self => self
    | Raise _ => empty_cache
    end in
  OutputCache_init log_sink_factory year_2020
                   [VDict [("quantity", VStr "production")]] None None = Ok self /\
  flush self ("production", one_entry "X") [] = (Raise TypeError, []).
Proof.
  intros self.
  assert (Hi : OutputCache_init log_sink_factory year_2020
                 [VDict [("quantity", VStr "production")]] None None = Ok self)
    by reflexivity.
  split; [exact Hi|].
  destruct (flush_placeholder_raises Log log_sink_factory year_2020 _ None self
              "production" (one_entry "X") [] Hi)
    as (e & Hf & He); try discriminate; [now left|].
  rewrite Hf. now rewrite (He 2020%Z eq_refl).
Defined.

(** ** The Agent Info Record as a whole *)

Lemma dict_get_keys_iff {V : Type} (k : string) (d : dict string V) :
  dict_get k d <> None <-> In k (dict_keys d).
Proof.
  induction d as [|[k0 v0] d IH]; simpl.
  - split; [congruence|contradiction].
  - destruct (String.eqb k k0) eqn:E.
    + apply String.eqb_eq in E. split; [now left|discriminate].
    + apply String.eqb_neq in E. rewrite IH. split; [now right|].
      intros [Heq|Hin]; [congruence|exact Hin].
Qed.

(** The record of a sector answers for a uuid exactly when the sector has
    an agent carrying it. *)
Lemma internal_domain (sector : Sector) (u : string) :
  dict_get u (extract_agents_internal sector) <> None <->
  exists a, In a (agents_or_empty sector) /\ agent_uuid a = u.
Proof.
  split.
  - rewrite internal_lookup. unfold last_with_uuid.
    destruct (find _ _) as [b|] eqn:Ef; [|congruence].
    intros _. apply find_some in Ef. destruct Ef as [Hin Heq].
    apply in_rev, sorted_In in Hin. apply String.eqb_eq in Heq. eauto.
  - intros (a & Hin & <-).
    destruct (internal_lookup_present sector a Hin) as (b & Hlast & _).
    rewrite internal_lookup, Hlast. discriminate.
Qed.

Lemma ChainMap_get_Some_in {V : Type} (k : string) (v : V)
      (cm : ChainMap string V) :
  ChainMap_get k cm = Some v -> exists m, In m cm /\ dict_get k m = Some v.
Proof.
  induction cm as [|m cm IH]; simpl; [discriminate|].
  destruct (dict_get k m) as [v'|] eqn:Em.
  - intros [= <-]. exists m. split; [now left|exact Em].
  - intros Hg. destruct (IH Hg) as (m' & Hin & Hm'). exists m'. split; auto.
Qed.

Lemma extract_agents_maps (sectors : list Sector) (m : dict string AgentRecord)
      (k : string) :
  In m (extract_agents sectors) ->
  dict_get k m <> None ->
  exists s, In s sectors /\ m = extract_agents_internal s.
Proof.
  unfold extract_agents. destruct sectors as [|s0 sectors].
  - simpl. intros [<-|[]]. simpl. congruence.
  - change (ChainMap_new (map extract_agents_internal (s0 :: sectors)))
      with (map extract_agents_internal (s0 :: sectors)).
    intros Hin _. apply in_map_iff in Hin. destruct Hin as (s & <- & Hs). eauto.
Qed.

(** X13: the Agent Info Record answers for a uuid exactly when some sector
    of the list has an agent carrying it; in particular it is empty for an
    empty list of sectors and for sectors without agents. *)
Theorem extract_agents_domain (sectors : list Sector) (u : string) :
  ChainMap_get u (extract_agents sectors) <> None <->
  exists s a, In s sectors /\ In a (agents_or_empty s) /\ agent_uuid a = u.
Proof.
  rewrite ChainMap_get_Some_iff. split.
  - intros (m & Hm & Hk). apply dict_get_keys_iff in Hk.
    destruct (extract_agents_maps sectors m u Hm Hk) as (s & Hs & ->).
    apply internal_domain in Hk. destruct Hk as (a & Ha & Hu). eauto.
  - intros (s & a & Hs & Ha & Hu).
    exists (extract_agents_internal s). split.
    + unfold extract_agents. destruct sectors as [|s0 sectors]; [contradiction|].
      change (ChainMap_new (map extract_agents_internal (s0 :: sectors)))
        with (map extract_agents_internal (s0 :: sectors)).
      now apply in_map.
    + apply dict_get_keys_iff, internal_domain. eauto.
Qed.

(** X14: every entry of the Agent Info Record comes from an agent of one
    of the sectors: it holds, in this order, the name of that agent under
    "agent", its category under "type" and the name of its sector, or
    "unnamed", under "sector". *)
Theorem extract_agents_sound (sectors : list Sector) (u : string)
        (record : AgentRecord) :
  ChainMap_get u (extract_agents sectors) = Some record ->
  exists s b,
    In s sectors /\
    In b (agents_or_empty s) /\
    agent_uuid b = u /\
    record = [("agent", agent_name b);
              ("type", agent_category b);
              ("sector", match sector_name s with
                         | Some n => n
                         | None => "unnamed"
                         end)].
Proof.
  intros Hg. apply ChainMap_get_Some_in in Hg. destruct Hg as (m & Hm & Hk).
  destruct (extract_agents_maps sectors m u Hm) as (s & Hs & ->); [congruence|].
  rewrite internal_lookup in Hk. unfold last_with_uuid in Hk.
  destruct (find _ _) as [b|] eqn:Ef; [|discriminate].
  apply find_some in Ef. destruct Ef as [Hin Heq].
  apply in_rev, sorted_In in Hin. apply String.eqb_eq in Heq.
  exists s, b. repeat split; auto. now inversion Hk.
Qed.

Lemma extract_agents_sound_witness :
  ChainMap_get "Y" (extract_agents [nameless_sector; power_sector])
  = Some [("agent", "B2"); ("type", "Retrofit"); ("sector", "power")] /\
  exists s b,
    In s [nameless_sector; power_sector] /\
    In b (agents_or_empty s) /\
    agent_uuid b = "Y".
Proof.
  assert (Hg : ChainMap_get "Y" (extract_agents [nameless_sector; power_sector])
               = Some [("agent", "B2"); ("type", "Retrofit"); ("sector", "power")])
    by reflexivity.
  split; [exact Hg|].
  destruct (extract_agents_sound _ _ _ Hg) as (s & b & Hs & Hb & Hu & _).
  eauto.
Defined.

(** ** Independence of the order of the agents *)

Lemma insert_sorted_Permutation {A : Type} (le : A -> A -> bool) (x : A)
      (l : list A) :
  Permutation (insert_sorted le x l) (x :: l).
Proof.
  induction l as [|y l IH]; simpl; [reflexivity|].
  destruct (le x y); [reflexivity|].
  rewrite IH. apply perm_swap.
Qed.

Lemma sorted_Permutation {A : Type} (le : A -> A -> bool) (l : list A) :
  Permutation (sorted le l) l.
Proof.
  unfold sorted. induction l as [|x l IH]; simpl; [reflexivity|].
  rewrite insert_sorted_Permutation. now constructor.
Qed.

(** Among agents with distinct uuids, looking for a uuid finds the agent
    that carries it, wherever it stands. *)
Lemma find_unique_uuid (l : list Agent) (a : Agent) :
  NoDup (map agent_uuid l) ->
  In a l ->
  find (fun b => String.eqb (agent_uuid b) (agent_uuid a)) l = Some a.
Proof.
  induction l as [|x l IH]; simpl; [contradiction|].
  intros Hnd Hin. inversion Hnd as [|? ? Hx Hnd']; subst.
  destruct (String.eqb (agent_uuid x) (agent_uuid a)) eqn:E.
  - apply String.eqb_eq in E. destruct Hin as [->|Hin]; [reflexivity|].
    exfalso. apply Hx. rewrite E. now apply in_map.
  - destruct Hin as [->|Hin]; [now rewrite String.eqb_refl in E|]. now apply IH.
Qed.

Lemma last_with_uuid_unique (l visited : list Agent) (u : string) :
  Permutation visited l ->
  NoDup (map agent_uuid l) ->
  last_with_uuid u visited = find (fun b => String.eqb (agent_uuid b) u) l.
Proof.
  intros Hperm Hnd. unfold last_with_uuid.
  assert (Hrev : Permutation (rev visited) l)
    by (now rewrite <- Permutation_rev).
  destruct (find (fun b => String.eqb (agent_uuid b) u) l) as [a|] eqn:Ef.
  - apply find_some in Ef. destruct Ef as [Hin Heq].
    apply String.eqb_eq in Heq. subst u.
    apply find_unique_uuid.
    + apply (Permutation_NoDup (l := map agent_uuid l)); [|exact Hnd].
      apply Permutation_map. now symmetry.
    + now apply (Permutation_in a (Permutation_sym Hrev)).
  - destruct (find _ (rev visited)) as [b|] eqn:Eb; [|reflexivity].
    apply find_some in Eb. destruct Eb as [Hin Heq].
    apply (Permutation_in b Hrev) in Hin.
    now rewrite (find_none _ _ Ef b Hin) in Heq.
Qed.

Lemma leb_trans (a b c : string) :
  String.leb a b = true -> String.leb b c = true -> String.leb a c = true.
Proof.
  unfold String.leb.
  destruct (String.compare a b) eqn:Eab; try discriminate; intros _;
    destruct (String.compare b c) eqn:Ebc; try discriminate; intros _.
  - apply String.compare_eq_iff in Eab. subst. now rewrite Ebc.
  - apply String.compare_eq_iff in Eab. subst. now rewrite Ebc.
  - apply String.compare_eq_iff in Ebc. subst. now rewrite Eab.
  - change (String_as_OT.cmp a b = Lt) in Eab.
    change (String_as_OT.cmp b c = Lt) in Ebc.
    apply String_as_OT.cmp_lt in Eab, Ebc.
    pose proof (String_as_OT.lt_trans _ _ _ Eab Ebc) as H.
    apply String_as_OT.cmp_lt in H. change (String.compare a c = Lt) in H.
    now rewrite H.
Qed.

Lemma insert_by_name_Sorted (x : Agent) (l : list Agent) :
  Sorted by_name l -> Sorted by_name (insert_sorted name_le x l).
Proof.
  induction l as [|y l IH]; intros Hs; simpl.
  - repeat constructor.
  - destruct (name_le x y) eqn:E.
    + constructor; [exact Hs|]. constructor. exact E.
    + inversion Hs as [|? ? Hs' Hhd]; subst.
      constructor; [now apply IH|].
      assert (Hyx : by_name y x).
      { unfold by_name, name_le in *.
        destruct (String.leb_total (agent_name x) (agent_name y)) as [H|H];
          [congruence|exact H]. }
      destruct l as [|z l]; simpl.
      * constructor. exact Hyx.
      * destruct (name_le x z); constructor; [exact Hyx|].
        now inversion Hhd.
Qed.

Lemma sorted_by_name (l : list Agent) :
  StronglySorted by_name (sorted name_le l).
Proof.
  apply Sorted_StronglySorted.
  - intros a b c. unfold by_name, name_le. apply leb_trans.
  - unfold sorted. induction l as [|x l IH]; simpl; [constructor|].
    now apply insert_by_name_Sorted.
Qed.

(** Two lists of agents with distinct display names, sorted by name and
    holding the same agents, are the same list. *)
Lemma sorted_by_name_unique (l1 : list Agent) :
  forall l2,
    StronglySorted by_name l1 ->
    StronglySorted by_name l2 ->
    Permutation l1 l2 ->
    NoDup (map agent_name l1) ->
    l1 = l2.
Proof.
  induction l1 as [|a l1 IH]; intros l2 Hs1 Hs2 Hperm Hnd.
  - apply Permutation_nil in Hperm. now subst.
  - destruct l2 as [|b l2];
      [apply Permutation_sym, Permutation_nil in Hperm; discriminate|].
    inversion Hs1 as [|? ? Hs1' Ha]; subst.
    inversion Hs2 as [|? ? Hs2' Hb]; subst.
    inversion Hnd as [|? ? Hna Hnd']; subst.
    assert (Hab : a = b).
    { assert (Hin : In a (b :: l2))
        by (apply (Permutation_in a Hperm); now left).
      destruct Hin as [->|Hin]; [reflexivity|].
      assert (Hin' : In b (a :: l1))
        by (apply (Permutation_in b (Permutation_sym Hperm)); now left).
      destruct Hin' as [->|Hin']; [reflexivity|]. exfalso.
      rewrite Forall_forall in Ha, Hb.
      pose proof (Ha b Hin') as H1. pose proof (Hb a Hin) as H2.
      unfold by_name, name_le in H1, H2.
      apply Hna. rewrite (String.leb_antisym _ _ H1 H2).
      now apply in_map. }
    subst b. f_equal. apply IH; auto.
    now apply Permutation_cons_inv in Hperm.
Qed.

(** X15: when the agents of a sector carry distinct uuids, what the record
    of the sector holds under each uuid does not depend on the order in
    which the sector lists its agents; when their display names are distinct
    as well, the record is the same dictionary, the order of its keys
    included. Agents that share a display name keep their listing order in
    the sort, and the order of the keys follows it: see
    [extract_agents_internal_key_order]. *)
Theorem extract_agents_internal_order (s1 s2 : Sector) :
  sector_name s1 = sector_name s2 ->
  Permutation (agents_or_empty s1) (agents_or_empty s2) ->
  NoDup (map agent_uuid (agents_or_empty s1)) ->
  (forall u,
      dict_get u (extract_agents_internal s1)
      = dict_get u (extract_agents_internal s2)) /\
  (NoDup (map agent_name (agents_or_empty s1)) ->
   extract_agents_internal s1 = extract_agents_internal s2).
Proof.
  intros Hname Hperm Hnd. split.
  - intros u. rewrite !internal_lookup.
    rewrite (last_with_uuid_unique (agents_or_empty s1) _ u
               (sorted_Permutation name_le _) Hnd).
    rewrite (last_with_uuid_unique (agents_or_empty s1)
               (sorted name_le (agents_or_empty s2)) u); [| |exact Hnd].
    + unfold name_or_unnamed. now rewrite Hname.
    + rewrite sorted_Permutation. now symmetry.
  - intros Hnames. unfold extract_agents_internal, name_or_unnamed.
    rewrite Hname.
    rewrite (sorted_by_name_unique
               (sorted name_le (agents_or_empty s1))
               (sorted name_le (agents_or_empty s2))
               (sorted_by_name _) (sorted_by_name _)); [reflexivity| |].
    + now rewrite !sorted_Permutation.
    + apply (Permutation_NoDup (l := map agent_name (agents_or_empty s1)));
        [|exact Hnames].
      apply Permutation_map. symmetry. apply sorted_Permutation.
Qed.

Lemma extract_agents_internal_order_witness :
  let swapped :=
    {| sector_name := Some "power";
       sector_agents :=
         Some [ {| agent_uuid := "X"; agent_name := "A1"; agent_category := "New" |};
                {| agent_uuid := "Y"; agent_name := "B2";
                   agent_category := "Retrofit" |} ] |} in
  Permutation (agents_or_empty power_sector) (agents_or_empty swapped) /\
  NoDup (map agent_uuid (agents_or_empty power_sector)) /\
  NoDup (map agent_name (agents_or_empty power_sector)) /\
  extract_agents_internal power_sector = extract_agents_internal swapped.
Proof.
  intros swapped.
  assert (Hp : Permutation (agents_or_empty power_sector) (agents_or_empty swapped))
    by apply perm_swap.
  assert (Hn : NoDup (map agent_uuid (agents_or_empty power_sector))).
  { simpl. repeat constructor; simpl; intuition discriminate. }
  assert (Hm : NoDup (map agent_name (agents_or_empty power_sector))).
  { simpl. repeat constructor; simpl; intuition discriminate. }
  split; [exact Hp|]. split; [exact Hn|]. split; [exact Hm|].
  exact (proj2 (extract_agents_internal_order power_sector swapped eq_refl Hp Hn)
               Hm).
Defined.

(** Agents with the same display name keep their listing order in the
    sort, so the keys of the record follow the listing. *)
Example extract_agents_internal_key_order :
  let a := {| agent_uuid := "A"; agent_name := "N"; agent_category := "New" |} in
  let b := {| agent_uuid := "B"; agent_name := "N"; agent_category := "New" |} in
  let listed l := {| sector_name := Some "power"; sector_agents := Some l |} in
  dict_keys (extract_agents_internal (listed [a; b])) = ["A"; "B"] /\
  dict_keys (extract_agents_internal (listed [b; a])) = ["B"; "A"].
Proof. split; reflexivity. Qed.

(** ** Edge behaviour of the consolidation of "capacity" *)

Lemma mem_In (c : string) (l : list string) : mem c l = true <-> In c l.
Proof.
  unfold mem. rewrite existsb_exists. split.
  - intros (x & Hx & He). apply String.eqb_eq in He. now subst.
  - intros Hin. exists c. split; [exact Hin|apply String.eqb_refl].
Qed.

(** X16: on a container in arrival order [combine_arrays] raises
    [TypeError] when the container is empty, the reduction having nothing
    to start from; raises [ValueError] when some entry has no dimension or
    a dimension named like the quantity; and otherwise returns a table that
    has the quantity column: the merges never fail for want of a common
    column. *)
Theorem combine_arrays_total (cached : Dataset) (quantity : string) :
  arrival_ordered cached ->
  (cached = [] -> combine_arrays cached quantity = Raise TypeError) /\
  (cached <> [] ->
   all_convertible quantity cached = false ->
   combine_arrays cached quantity = Raise ValueError) /\
  (cached <> [] ->
   all_convertible quantity cached = true ->
   exists table,
     combine_arrays cached quantity = Ok table /\
     mem quantity (columns table) = true).
Proof.
  intros Hord. split; [|split].
  - intros ->. reflexivity.
  - intros _ Hc.
    now rewrite (combine_arrays_frames cached quantity
                   (arrival_ordered_NoDup cached Hord)), Hc.
  - intros Hne Hc.
    rewrite (combine_arrays_frames cached quantity
               (arrival_ordered_NoDup cached Hord)), Hc.
    destruct cached as [|[k v] rest]; [congruence|]. cbn [map snd reduce].
    apply foldM_merge_total.
    + apply frame_of_entry_has_quantity.
    + apply Forall_forall. intros f Hf. apply in_map_iff in Hf.
      destruct Hf as (kv & <- & _). apply frame_of_entry_has_quantity.
Qed.

Lemma combine_arrays_total_witness :
  arrival_ordered (two_entries 0 3) /\
  two_entries 0 3 <> [] /\
  all_convertible "capacity" (two_entries 0 3) = true /\
  exists table,
    combine_arrays (two_entries 0 3) "capacity" = Ok table /\
    mem "capacity" (columns table) = true.
Proof.
  assert (Hord : arrival_ordered (two_entries 0 3)) by reflexivity.
  assert (Hne : two_entries 0 3 <> []) by discriminate.
  assert (Hc : all_convertible "capacity" (two_entries 0 3) = true)
    by reflexivity.
  split; [exact Hord|]. split; [exact Hne|]. split; [exact Hc|].
  exact (proj2 (proj2 (combine_arrays_total (two_entries 0 3) "capacity" Hord))
               Hne Hc).
Defined.

Lemma merge_right_columns (left right merged : DataFrame) (c : string) :
  merge_right left right = Ok merged ->
  mem c (columns merged) = true ->
  mem c (columns left) = true \/ mem c (columns right) = true.
Proof.
  unfold merge_right.
  destruct (filter (fun c => mem c (columns right)) (columns left));
    [discriminate|].
  intros [= <-]. simpl. rewrite mem_app. intros Hm.
  apply orb_true_iff in Hm. destruct Hm as [Hl|Hr]; [now left|right].
  apply mem_In in Hr. apply filter_In in Hr. now apply mem_In.
Qed.

Lemma foldM_merge_columns (c : string) (later : list DataFrame) :
  forall acc merged,
    foldM merge_right later acc = Ok merged ->
    mem c (columns merged) = true ->
    mem c (columns acc) = true \/
    exists f, In f later /\ mem c (columns f) = true.
Proof.
  induction later as [|f later IH]; intros acc merged Hf Hm; simpl in Hf.
  - inversion Hf; subst. now left.
  - destruct (merge_right acc f) as [acc'|] eqn:Em; simpl in Hf; [|discriminate].
    destruct (IH acc' merged Hf Hm) as [Hacc|(f' & Hin & Hc)].
    + destruct (merge_right_columns acc f acc' c Em Hacc) as [Hl|Hr];
        [now left|right].
      exists f. split; [now left|exact Hr].
    + right. exists f'. split; [now right|exact Hc].
Qed.

(** X17: on a non-empty container in arrival order whose entries can all
    be converted and carry no coordinate but those of their dimensions, when
    no entry has an [agent] dimension and the Agent Info Record is not
    empty, [capacity] raises [AttributeError]: the loop reads the [agent]
    column of a table that has none. *)
Theorem capacity_without_agent_raises (cached : Dataset) (agents : AgentInfo) :
  arrival_ordered cached ->
  cached <> [] ->
  all_convertible "capacity" cached = true ->
  (forall kv, In kv cached -> ~ In "agent" (var_dims (snd kv))) ->
  ChainMap_keys agents <> [] ->
  capacity cached agents = Raise AttributeError.
Proof.
  intros Hord Hne Hconv Hdims Hkeys.
  destruct (capacity_pipeline cached agents Hord Hne Hconv)
    as (merged & Hred & _ & ->).
  assert (Hno : mem "agent" (columns merged) = false).
  { destruct (mem "agent" (columns merged)) eqn:Em; [|reflexivity]. exfalso.
    assert (Hframe : forall kv, In kv cached ->
                                mem "agent" (columns (frame_of_entry "capacity" (snd kv)))
                                = false).
    { intros kv Hin. unfold frame_of_entry. simpl. rewrite mem_app. simpl.
      destruct (mem "agent" (var_dims (snd kv))) eqn:E; [|reflexivity].
      apply mem_In in E. now apply Hdims in E. }
    destruct cached as [|kv rest]; [congruence|]. cbn [map reduce] in Hred.
    destruct (foldM_merge_columns "agent" _ _ _ Hred Em) as [H0|(f & Hin & Hc)].
    - rewrite (Hframe kv) in H0 by now left. discriminate.
    - apply in_map_iff in Hin. destruct Hin as (kv' & <- & Hin').
      rewrite (Hframe kv') in Hc by now right. discriminate. }
  unfold enrich. destruct (ChainMap_keys agents) as [|k keys]; [congruence|].
  cbn [foldM]. unfold enrich_agent at 1, getattr_col. simpl columns.
  destruct (col_index "agent" (columns merged)) as [i|] eqn:Ei; [|reflexivity].
  exfalso. assert (Hin : In "agent" (columns merged)).
  { destruct (in_dec string_dec "agent" (columns merged)) as [H|H]; [exact H|].
    apply col_index_None_In in H. congruence. }
  apply mem_In in Hin. congruence.
Qed.

Lemma capacity_without_agent_raises_witness :
  let cached : Dataset :=
    [(0, {| var_dims := ["region"]; var_elems := [([SStr "R1"], SNum 5)] |})] in
  arrival_ordered cached /\
  all_convertible "capacity" cached = true /\
  ChainMap_keys (extract_agents [power_sector]) <> [] /\
  capacity cached (extract_agents [power_sector]) = Raise AttributeError.
Proof.
  intros cached.
  assert (Hord : arrival_ordered cached) by reflexivity.
  assert (Hc : all_convertible "capacity" cached = true) by reflexivity.
  assert (Hk : ChainMap_keys (extract_agents [power_sector]) <> []) by discriminate.
  split; [exact Hord|]. split; [exact Hc|]. split; [exact Hk|].
  apply (capacity_without_agent_raises cached _ Hord);
    [discriminate|exact Hc| |exact Hk].
  intros kv [<-|[]]. simpl. intros [H|[]]. discriminate H.
Defined.

(** ** No zero row survives *)

Lemma overlay_cases (items : list (string * string)) :
  forall (base : string -> scalar) (c : string),
    overlay items base c = base c \/ exists v, overlay items base c = SStr v.
Proof.
  induction items as [|[k v] items IH]; intros base c; simpl; [now left|].
  destruct (IH (fun c' => if String.eqb c' k then SStr v else base c') c)
    as [H|H]; [|now right].
  rewrite H. destruct (String.eqb c k); [right; eauto|now left].
Qed.

Lemma loc_set_length (mask : list bool) (key : string) (v : scalar)
      (df df' : DataFrame) :
  loc_set mask key v df = Ok df' -> length (rows df') = length (rows df).
Proof.
  unfold loc_set. destruct (col_index key (columns df)).
  - intros [= <-]. simpl. apply length_map_mask.
  - destruct (rows df) eqn:Er; [discriminate|]. intros [= <-]. simpl.
    apply length_map_mask.
Qed.

Lemma enrich_agent_length (agents : AgentInfo) (df df' : DataFrame) (u : string) :
  enrich_agent agents df u = Ok df' -> length (rows df') = length (rows df).
Proof.
  unfold enrich_agent.
  destruct (getattr_col "agent" df) as [col|]; simpl; [|discriminate].
  destruct (ChainMap_getitem u agents) as [record|]; simpl; [|discriminate].
  generalize (map (scalar_eqb (SStr u)) col). intros filter.
  revert df. induction record as [|kv record IH]; intros df; simpl.
  - now intros [= <-].
  - destruct (loc_set filter (fst kv) (SStr (snd kv)) df) as [df1|] eqn:E;
      simpl; [|discriminate].
    intros Hf. rewrite (IH df1 Hf). now apply loc_set_length in E.
Qed.

Lemma enrich_length (agents : AgentInfo) (keys : list string) :
  forall df df',
    foldM (enrich_agent agents) keys df = Ok df' ->
    length (rows df') = length (rows df).
Proof.
  induction keys as [|k keys IH]; intros df df'; simpl.
  - now intros [= <-].
  - destruct (enrich_agent agents df k) as [df1|] eqn:E; simpl; [|discriminate].
    intros Hf. rewrite (IH df1 df' Hf). now apply enrich_agent_length in E.
Qed.

(** Whatever the record, the loop leaves a cell as it was or writes a
    string to it. *)
Lemma enrich_cells (agents : AgentInfo) (keys : list string) :
  forall df df',
    wf_frame df ->
    rows df <> [] ->
    foldM (enrich_agent agents) keys df = Ok df' ->
    forall j c,
      j < length (rows df) ->
      cell_at df' j c = cell_at df j c \/ exists v, cell_at df' j c = SStr v.
Proof.
  induction keys as [|k keys IH]; intros df df' Hwf Hne Hf j c Hj; simpl in Hf.
  - inversion Hf; subst. now left.
  - destruct (enrich_agent agents df k) as [df1|] eqn:E; simpl in Hf;
      [|discriminate].
    assert (Hag : mem "agent" (columns df) = true).
    { unfold enrich_agent, getattr_col in E.
      destruct (col_index "agent" (columns df)) eqn:Ei; [|discriminate].
      apply mem_In.
      destruct (in_dec string_dec "agent" (columns df)) as [H|H]; [exact H|].
      apply col_index_None_In in H. congruence. }
    assert (Hrec : exists record, ChainMap_get k agents = Some record).
    { unfold enrich_agent, ChainMap_getitem in E.
      destruct (getattr_col "agent" df); simpl in E; [|discriminate].
      destruct (ChainMap_get k agents); [eauto|discriminate]. }
    destruct Hrec as [record Hrec].
    destruct (enrich_agent_spec agents k record df Hrec Hwf Hag Hne)
      as (df1' & E' & Hwf1 & Hl1 & _ & Hc1).
    assert (df1' = df1) by congruence. subst df1'.
    assert (Hne1 : rows df1 <> []).
    { intros H0. apply Hne. apply length_zero_iff_nil. rewrite <- Hl1, H0.
      reflexivity. }
    destruct (IH df1 df' Hwf1 Hne1 Hf j c ltac:(congruence)) as [H|H];
      [|now right].
    rewrite H, (Hc1 j c Hj).
    destruct (scalar_eqb (SStr k) (cell_at df j "agent")); [|now left].
    apply overlay_cases.
Qed.

Lemma drop_zero_rows_nonzero (q : string) (df : DataFrame) (j : nat) :
  j < length (rows (drop_zero_rows q df)) ->
  cell_at (drop_zero_rows q df) j q <> SNum 0.
Proof.
  unfold cell_at, drop_zero_rows. simpl. intros Hj E.
  pose proof (nth_In _ [] Hj) as Hin.
  apply filter_In in Hin. destruct Hin as [_ Hz].
  rewrite E in Hz. discriminate.
Qed.

(** X18: the table [capacity] returns has no row whose capacity is zero,
    whatever the Agent Info Record holds. *)
Theorem capacity_no_zero_row (cached : Dataset) (agents : AgentInfo)
        (table : DataFrame) :
  arrival_ordered cached ->
  Forall (fun kv => wf_entry (snd kv)) cached ->
  capacity cached agents = Ok table ->
  forall j, j < length (rows table) -> cell_at table j "capacity" <> SNum 0.
Proof.
  intros Hord Hwf Hcap j Hj.
  destruct cached as [|[k v] rest] eqn:Ec; [discriminate Hcap|]. rewrite <- Ec in *.
  assert (Hne : cached <> []) by (rewrite Ec; discriminate).
  assert (Hconv : all_convertible "capacity" cached = true).
  { destruct (all_convertible "capacity" cached) eqn:E; [reflexivity|].
    rewrite (capacity_unconvertible cached agents Hord E) in Hcap.
    discriminate Hcap. }
  destruct (capacity_pipeline cached agents Hord Hne Hconv)
    as (merged & Hred & _ & Hpipe).
  rewrite Hpipe in Hcap.
  set (data := drop_zero_rows "capacity" merged) in *.
  destruct (enrich agents data) as [enriched|] eqn:He; [|discriminate].
  cbn [bind] in Hcap. inversion Hcap; subst table. clear Hcap.
  rewrite length_sort_columns in Hj.
  pose proof (enrich_length agents _ data enriched He) as Hl.
  rewrite cell_at_sort_columns by assumption.
  assert (Hm : wf_frame merged).
  { rewrite Ec in Hred, Hwf. cbn [map snd reduce] in Hred.
    apply (foldM_merge_wf _ _ _ (frame_of_entry_wf _ v
             ltac:(now inversion Hwf)) Hred). }
  assert (Hj' : j < length (rows data)) by (rewrite <- Hl; exact Hj).
  assert (Hdata : cell_at data j "capacity" <> SNum 0)
    by (apply drop_zero_rows_nonzero; exact Hj').
  assert (Hne' : rows data <> []).
  { intros H0. rewrite H0 in Hl. simpl in Hl. lia. }
  destruct (enrich_cells agents _ data enriched
              (drop_zero_rows_wf "capacity" merged Hm) Hne' He j "capacity" Hj')
    as [H|[s H]]; rewrite H; [exact Hdata|discriminate].
Qed.

Lemma capacity_no_zero_row_witness :
  let cached : Dataset :=
    [(0, {| var_dims := ["agent"];
            var_elems := [([SStr "X"], SNum 0); ([SStr "Y"], SNum 3)] |})] in
  arrival_ordered cached /\
  Forall (fun kv => wf_entry (snd kv)) cached /\
  exists table,
    capacity cached (extract_agents [power_sector]) = Ok table /\
    length (rows table) = 1 /\
    cell_at table 0 "capacity" <> SNum 0.
Proof.
  intros cached.
  assert (Hord : arrival_ordered cached) by reflexivity.
  assert (Hwf : Forall (fun kv => wf_entry (snd kv)) cached)
    by (repeat constructor).
  split; [exact Hord|]. split; [exact Hwf|].
  destruct (capacity cached (extract_agents [power_sector])) as [table|] eqn:E;
    [|discriminate E].
  exists table. split; [reflexivity|].
  assert (Hl : length (rows table) = 1) by (now inversion E).
  split; [exact Hl|].
  apply (capacity_no_zero_row cached _ table Hord Hwf E 0). lia.
Defined.

(** ** The rows of the merge are those of the latest entry *)

Lemma col_index_app (c : string) (l1 l2 : list string) :
  col_index c (l1 ++ l2)
  = match col_index c l1 with
    | Some i => Some i
    | None => match col_index c l2 with
              | Some i => Some (length l1 + i)
              | None => None
              end
    end.
Proof.
  induction l1 as [|c' l1 IH]; simpl.
  - destruct (col_index c l2); reflexivity.
  - destruct (String.eqb c c'); [reflexivity|]. rewrite IH.
    destruct (col_index c l1); [reflexivity|].
    destruct (col_index c l2); reflexivity.
Qed.

Lemma col_index_In (c : string) (cols : list string) :
  In c cols -> exists i, col_index c cols = Some i.
Proof. intros Hin. apply mem_col_index. now apply mem_In. Qed.

(** A row built column by column reads, under a name, what was built for
    that name. *)
Lemma cell_built_left (cols1 cols2 : list string) (f g : string -> scalar)
      (c : string) :
  In c cols1 ->
  cell (cols1 ++ cols2) (map f cols1 ++ map g cols2) c = f c.
Proof.
  intros Hin. destruct (col_index_In c cols1 Hin) as [i Hi].
  unfold cell. rewrite col_index_app, Hi.
  destruct (col_index_nth c cols1 i Hi) as [Hlt Hnth].
  rewrite app_nth1 by now rewrite length_map.
  rewrite (nth_indep _ SNaN (f "")) by now rewrite length_map.
  now rewrite map_nth, Hnth.
Qed.

Lemma cell_built_right (cols1 cols2 : list string) (f g : string -> scalar)
      (c : string) :
  ~ In c cols1 ->
  In c cols2 ->
  cell (cols1 ++ cols2) (map f cols1 ++ map g cols2) c = g c.
Proof.
  intros Hn Hin. destruct (col_index_In c cols2 Hin) as [i Hi].
  apply col_index_None_In in Hn.
  unfold cell. rewrite col_index_app, Hn, Hi.
  destruct (col_index_nth c cols2 i Hi) as [Hlt Hnth].
  rewrite app_nth2 by (rewrite length_map; lia).
  rewrite length_map, Nat.add_comm, Nat.add_sub.
  rewrite (nth_indep _ SNaN (g "")) by now rewrite length_map.
  now rewrite map_nth, Hnth.
Qed.

Section MergeRows.
Variables left right : DataFrame.

Let on := filter (fun c => mem c (columns right)) (columns left).
Let ronly := filter (fun c => negb (mem c (columns left))) (columns right).
Let matching (r : list scalar) :=
  filter (fun l => forallb (fun c => scalar_eqb (cell (columns left) l c)
                                                (cell (columns right) r c)) on)
         (rows left).
Let join (r : list scalar) :=
  match matching r with
  | [] => [map (fun c => if mem c (columns right)
                         then cell (columns right) r c else SNaN)
               (columns left)
           ++ map (cell (columns right) r) ronly]
  | ls => map (fun l => map (cell (columns left) l) (columns left)
                        ++ map (cell (columns right) r) ronly) ls
  end.

(** Every row joined to [r] reads as [r] under the columns of [right],
    and there is at least one. *)
Lemma join_agrees (r row : list scalar) (c : string) :
  In row (join r) ->
  In c (columns right) ->
  cell (columns left ++ ronly) row c = cell (columns right) r c.
Proof.
  intros Hrow Hc.
  assert (Hright : ~ In c (columns left) ->
                   forall f, cell (columns left ++ ronly)
                                  (map f (columns left)
                                   ++ map (cell (columns right) r) ronly) c
                             = cell (columns right) r c).
  { intros Hn f. apply cell_built_right; [exact Hn|].
    apply filter_In. split; [exact Hc|].
    destruct (mem c (columns left)) eqn:E; [|reflexivity].
    apply mem_In in E. contradiction. }
  unfold join in Hrow. destruct (matching r) as [|l0 ls] eqn:Em.
  - destruct Hrow as [<-|[]].
    destruct (in_dec string_dec c (columns left)) as [Hl|Hn].
    + rewrite cell_built_left by exact Hl.
      apply mem_In in Hc. now rewrite Hc.
    + now apply Hright.
  - apply in_map_iff in Hrow. destruct Hrow as (l & <- & Hl).
    rewrite <- Em in Hl. apply filter_In in Hl. destruct Hl as [_ Hall].
    destruct (in_dec string_dec c (columns left)) as [Hcl|Hn].
    + rewrite cell_built_left by exact Hcl.
      rewrite forallb_forall in Hall. apply scalar_eqb_eq, Hall.
      apply filter_In. split; [exact Hcl|]. now apply mem_In.
    + now apply Hright.
Qed.

Lemma join_nonempty (r : list scalar) : join r <> [].
Proof.
  unfold join. destruct (matching r); simpl; discriminate.
Qed.

Lemma merge_right_rows (merged : DataFrame) :
  merge_right left right = Ok merged ->
  columns merged = columns left ++ ronly /\
  rows merged = flat_map join (rows right).
Proof.
  unfold merge_right. fold on.
  destruct on; [discriminate|]. intros [= <-]. split; reflexivity.
Qed.

(** A right merge keeps every row of [right] and draws every row from
    [right]. *)
Lemma merge_right_keeps_right (merged : DataFrame) :
  merge_right left right = Ok merged ->
  (forall row, In row (rows merged) ->
               exists r, In r (rows right) /\
                         forall c, In c (columns right) ->
                                   cell (columns merged) row c
                                   = cell (columns right) r c) /\
  (forall r, In r (rows right) ->
             exists row, In row (rows merged) /\
                         forall c, In c (columns right) ->
                                   cell (columns merged) row c
                                   = cell (columns right) r c).
Proof.
  intros Hm. destruct (merge_right_rows merged Hm) as [Hc Hr].
  rewrite Hc, Hr. split.
  - intros row Hrow. apply in_flat_map in Hrow. destruct Hrow as (r & Hin & Hj).
    exists r. split; [exact Hin|]. intros c Hcol. now apply join_agrees.
  - intros r Hin. destruct (join r) as [|row rest] eqn:Ej;
      [now apply join_nonempty in Ej|].
    exists row. split.
    + apply in_flat_map. exists r. split; [exact Hin|]. rewrite Ej. now left.
    + intros c Hcol. apply join_agrees; [|exact Hcol]. rewrite Ej. now left.
Qed.
End MergeRows.

(** X19: on a container in arrival order whose entries can all be
    converted, the table [combine_arrays] builds has, under the columns of
    the latest entry, exactly the rows of the latest entry: each of its rows
    reads as some element of the latest entry, and every element of the
    latest entry is read by one of its rows; earlier entries only add cells
    under other columns. *)
Theorem combine_arrays_latest_rows (earlier : Dataset) (k : nat) (v : DataVar)
        (quantity : string) :
  arrival_ordered (earlier ++ [(k, v)]) ->
  all_convertible quantity (earlier ++ [(k, v)]) = true ->
  let latest := frame_of_entry quantity v in
  exists table,
    combine_arrays (earlier ++ [(k, v)]) quantity = Ok table /\
    (forall row, In row (rows table) ->
                 exists r, In r (rows latest) /\
                           forall c, In c (columns latest) ->
                                     cell (columns table) row c
                                     = cell (columns latest) r c) /\
    (forall r, In r (rows latest) ->
               exists row, In row (rows table) /\
                           forall c, In c (columns latest) ->
                                     cell (columns table) row c
                                     = cell (columns latest) r c).
Proof.
  intros Hord Hconv latest.
  rewrite (combine_arrays_frames _ quantity (arrival_ordered_NoDup _ Hord)), Hconv.
  rewrite map_app. cbn [map snd]. fold latest.
  destruct (map (fun kv => frame_of_entry quantity (snd kv)) earlier)
    as [|first later] eqn:Ee.
  - exists latest. split; [reflexivity|]. split; intros r Hr; exists r; auto.
  - cbn [app reduce]. rewrite foldM_last.
    assert (Hq : Forall (fun f => mem quantity (columns f) = true) (first :: later)).
    { rewrite <- Ee. apply Forall_forall. intros f Hf. apply in_map_iff in Hf.
      destruct Hf as (kv & <- & _). apply frame_of_entry_has_quantity. }
    inversion Hq as [|? ? Hfirst Hlater]; subst.
    destruct (foldM_merge_total quantity later first Hfirst Hlater)
      as (acc & -> & Hacc).
    cbn [bind].
    destruct (merge_right_shared quantity acc latest Hacc
                (frame_of_entry_has_quantity quantity v)) as (table & Hm & _).
    exists table. split; [exact Hm|].
    exact (merge_right_keeps_right acc latest table Hm).
Qed.

Lemma combine_arrays_latest_rows_witness :
  let earlier : Dataset :=
    [(0, {| var_dims := ["agent"];
            var_elems := [([SStr "X"], SNum 5); ([SStr "Y"], SNum 0)] |})] in
  let v := {| var_dims := ["agent"];
              var_elems := [([SStr "X"], SNum 5); ([SStr "Y"], SNum 3)] |} in
  earlier ++ [(1, v)] = two_entries 0 3 /\
  arrival_ordered (earlier ++ [(1, v)]) /\
  all_convertible "capacity" (earlier ++ [(1, v)]) = true /\
  combine_arrays (earlier ++ [(1, v)]) "capacity"
  = Ok (frame_of_entry "capacity" v).
Proof.
  intros earlier v.
  assert (Hord : arrival_ordered (earlier ++ [(1, v)])) by reflexivity.
  assert (Hc : all_convertible "capacity" (earlier ++ [(1, v)]) = true)
    by reflexivity.
  split; [reflexivity|]. split; [exact Hord|]. split; [exact Hc|].
  destruct (combine_arrays_latest_rows earlier 1 v "capacity" Hord Hc)
    as (table & Ht & _).
  rewrite Ht. injection Ht as <-. reflexivity.
Defined.

(** ** Further instances and compositions *)

Lemma capacity_rows_without_rematch_witness :
  let cached := one_entry "X" in
  let agents := extract_agents [power_sector; nameless_sector] in
  arrival_ordered cached /\
  all_convertible "capacity" cached = true /\
  Forall (fun kv => wf_entry (snd kv)) cached /\
  exists table,
    capacity cached agents = Ok table /\
    cell_at table 0 "agent" = SStr "A1" /\
    cell_at table 0 "type" = SStr "New" /\
    cell_at table 0 "sector" = SStr "power".
Proof.
  intros cached agents.
  assert (Hord : arrival_ordered cached) by reflexivity.
  assert (Hwf : Forall (fun kv => wf_entry (snd kv)) cached)
    by (repeat constructor).
  assert (Hc : all_convertible "capacity" cached = true) by reflexivity.
  split; [exact Hord|]. split; [exact Hc|]. split; [exact Hwf|].
  destruct (capacity_rows_without_rematch cached agents Hord
              ltac:(discriminate) Hc Hwf) as (merged & Hm & Hrows).
  injection Hm as <-.
  destruct (Hrows eq_refl ltac:(discriminate)) as (table & Hcap & _ & Hcells).
  exists table. split; [exact Hcap|].
  apply (proj1 (Hcells 0 ltac:(simpl; lia)) "X" "A1" "New" "power"); try reflexivity.
  simpl. intros [H|[]]. discriminate H.
Defined.

(** X21: [consolidate_cache] calls nothing for an empty container: its
    outcome and the world it leaves are those of the flush of the
    non-empty containers alone, in configuration order. *)
Theorem consolidate_skips_empty (World : Type) (self : OutputCache World)
        (w : World) :
  let nonempty :=
    filter (fun item => negb (Nat.eqb (Dataset_len (snd item)) 0)) (to_save self) in
  fst (consolidate_cache (self, w)) = fst (flush_all self nonempty w) /\
  snd (snd (consolidate_cache (self, w))) = snd (flush_all self nonempty w).
Proof.
  intros nonempty. unfold consolidate_cache. cbn [fst snd].
  rewrite flush_all_skips_empty. fold nonempty.
  destruct (flush_all self nonempty w) as [[[]|e] w']; split; reflexivity.
Qed.

(** X22: the callable [_factory] builds for several parameters saves them
    one after the other: running it on two lists of outputs in a row is
    running the first, and then the second from the world the first left,
    unless the first raised, which stops everything. *)
Theorem save_each_app (World : Type) (market : Dataset) (agents : AgentInfo)
        (year : Z)
        (pairs1 pairs2 : list ((Dataset -> AgentInfo -> result pyobj) * Sink World))
        (w : World) :
  save_each market agents year (pairs1 ++ pairs2) w
  = match save_each market agents year pairs1 w with
    | (Ok _, w1) => save_each market agents year pairs2 w1
    | (Raise e, w1) => (Raise e, w1)
    end.
Proof.
  revert w. induction pairs1 as [|[quantity sink] pairs1 IH]; intros w; simpl.
  - reflexivity.
  - destruct (quantity market agents) as [table|e]; [|reflexivity].
    destruct (sink table year w) as [[[]|e] w1]; [apply IH|reflexivity].
Qed.

Section SinkErrors.
Variable World : Type.
Variable sink_factory : pyval -> string -> result (Sink World).
Variable year_min : Dataset -> result Z.

(** The second comprehension goes through on plain specifications whose
    sinks can be built. *)
Lemma factory_total (reg : Registry) (ts : dict string Dataset) (ps : list pyval) :
  Forall plain_spec ps ->
  (forall k, dict_mem k ts = true -> dict_get k reg <> None) ->
  (forall p, In p ps -> exists sink, sink_factory p "Cache" = Ok sink) ->
  forall acc,
    exists fs, foldM (factory_step sink_factory year_min reg ts) ps acc = Ok fs.
Proof.
  intros Hplain Hreg. induction Hplain as [|p ps Hp _ IH]; intros Hsink acc;
    simpl; [eauto|].
  destruct Hp as (d & k & -> & Hq).
  unfold factory_step at 1, getitem, dict_getitem. rewrite Hq. cbn [bind contains].
  destruct (dict_mem k ts) eqn:Ek; cbn [bind as_key].
  - destruct (dict_get k reg) as [fn|] eqn:Er; [|exfalso; now apply (Hreg k Ek)].
    destruct (Hsink (VDict d) (or_introl eq_refl)) as [sink Hs].
    unfold _factory. cbn [map mapM].
    unfold _quantity_factory, pop, dict_getitem. rewrite Hq. cbn [bind fst snd].
    unfold lookup, dict_getitem. rewrite Er. cbn [bind fst snd].
    rewrite Hs. cbn [bind].
    apply IH. intros p Hin. apply Hsink. now right.
  - apply IH. intros p Hin. apply Hsink. now right.
Qed.
End SinkErrors.

(** X23: when the sink factory rejects the specification of a registered
    quantity, the constructor raises that very error, provided all the
    specifications are plain and the sinks of the earlier ones could be
    built. *)
Theorem init_sink_error_propagates (World : Type)
        (sink_factory : pyval -> string -> result (Sink World))
        (year_min : Dataset -> result Z)
        (ps1 ps2 : list pyval) (d : list (string * pyval)) (k : string) (e : exn)
        (output_quantities : option Registry) (sectors : option (list Sector)) :
  Forall plain_spec (ps1 ++ VDict d :: ps2) ->
  dict_get "quantity" d = Some (VStr k) ->
  dict_get k (registry_or_default output_quantities) <> None ->
  (forall p, In p ps1 -> exists sink, sink_factory p "Cache" = Ok sink) ->
  sink_factory (VDict d) "Cache" = Raise e ->
  OutputCache_init sink_factory year_min (ps1 ++ VDict d :: ps2)
                   output_quantities sectors
  = Raise e.
Proof.
  intros Hplain Hq Hr Hsinks He. unfold OutputCache_init.
  set (reg := registry_or_default output_quantities) in *.
  destruct (to_save_total reg _ Hplain []) as [ts Hts]. rewrite Hts. cbn [bind].
  assert (Hreg : forall k', dict_mem k' ts = true -> dict_get k' reg <> None).
  { intros k' Hk' Hn. apply dict_mem_true in Hk'. apply Hk'.
    exact (to_save_registered reg k' _ [] ts Hn eq_refl Hts). }
  assert (Hk : dict_mem k ts = true).
  { apply dict_mem_true. apply (to_save_retains reg k _ [] ts Hts). right.
    split; [now apply dict_mem_true|].
    exists (VDict d). split; [apply in_or_app; right; now left|].
    unfold getitem, dict_getitem. now rewrite Hq. }
  rewrite foldM_app.
  destruct (factory_total World sink_factory year_min reg ts ps1
              ltac:(apply Forall_app in Hplain; tauto) Hreg Hsinks [])
    as [a1 ->].
  cbn [bind foldM].
  unfold factory_step at 1, getitem, dict_getitem. rewrite Hq. cbn [bind contains].
  rewrite Hk. cbn [bind as_key].
  destruct (dict_get k reg) as [fn|] eqn:Er; [|congruence].
  unfold _factory. cbn [map mapM].
  unfold _quantity_factory, pop, dict_getitem. rewrite Hq. cbn [bind fst snd].
  unfold lookup, dict_getitem. rewrite Er. cbn [bind fst snd].
  rewrite He. reflexivity.
Qed.

Lemma init_sink_error_propagates_witness :
  let reject (p : pyval) (s : string) : result (Sink Log) :=
    Raise (OtherError "unknown sink") in
  Forall plain_spec [capacity_param] /\
  OutputCache_init reject year_2020 [capacity_param] None None
  = Raise (OtherError "unknown sink").
Proof.
  intros reject.
  assert (Hp : Forall plain_spec ([] ++ capacity_param :: [])).
  { repeat constructor. eexists. eexists. split; reflexivity. }
  split; [exact Hp|].
  apply (init_sink_error_propagates Log reject year_2020 [] []
           [("quantity", VStr "capacity")] "capacity" (OtherError "unknown sink")
           None None Hp eq_refl); [discriminate| |reflexivity].
  intros p [].
Defined.

(** ** Caching the same array again *)

Lemma col_index_NoDup_nth (cols : list string) :
  NoDup cols ->
  forall i, i < length cols -> col_index (nth i cols "") cols = Some i.
Proof.
  induction 1 as [|c cols Hc Hnd IH]; intros i Hi; simpl in *; [lia|].
  destruct i as [|i]; [now rewrite String.eqb_refl|].
  assert (Hin : In (nth i cols "") cols) by (apply nth_In; lia).
  destruct (String.eqb (nth i cols "") c) eqn:E.
  - apply String.eqb_eq in E. rewrite E in Hin. contradiction.
  - rewrite IH by lia. reflexivity.
Qed.

(** Reading a row under each column in turn gives the row back. *)
Lemma map_cell_id (cols : list string) (r : list scalar) :
  NoDup cols -> length r = length cols -> map (cell cols r) cols = r.
Proof.
  intros Hnd Hl. apply (nth_ext _ _ SNaN SNaN); [now rewrite length_map|].
  intros i Hi. rewrite length_map in Hi.
  rewrite (nth_indep _ SNaN (cell cols r "")) by now rewrite length_map.
  rewrite map_nth. unfold cell. now rewrite col_index_NoDup_nth.
Qed.

Lemma filter_all {A : Type} (f : A -> bool) (l : list A) :
  (forall x, In x l -> f x = true) -> filter f l = l.
Proof.
  induction l as [|x l IH]; intros Hf; simpl; [reflexivity|].
  rewrite (Hf x) by now left. f_equal. apply IH. intros y Hy. apply Hf. now right.
Qed.

Lemma filter_none {A : Type} (f : A -> bool) (l : list A) :
  (forall x, In x l -> f x = false) -> filter f l = [].
Proof.
  induction l as [|x l IH]; intros Hf; simpl; [reflexivity|].
  rewrite (Hf x) by now left. apply IH. intros y Hy. apply Hf. now right.
Qed.

Lemma filter_unique {A : Type} (f : A -> bool) (l : list A) (r : A) :
  NoDup l ->
  In r l ->
  (forall x, In x l -> (f x = true <-> x = r)) ->
  filter f l = [r].
Proof.
  induction 1 as [|x l Hx Hnd IH]; intros Hin Hf; [contradiction|]. simpl.
  destruct Hin as [->|Hin].
  - rewrite (proj2 (Hf r (or_introl eq_refl)) eq_refl). f_equal.
    apply filter_none. intros y Hy.
    destruct (f y) eqn:E; [|reflexivity].
    apply (Hf y (or_intror Hy)) in E. subst y. contradiction.
  - destruct (f x) eqn:E.
    + apply (Hf x (or_introl eq_refl)) in E. subst x. contradiction.
    + apply IH; [exact Hin|]. intros y Hy. apply Hf. now right.
Qed.

Lemma forallb_cell_eq (cols : list string) (l r : list scalar) :
  NoDup cols ->
  length l = length cols ->
  length r = length cols ->
  (forallb (fun c => scalar_eqb (cell cols l c) (cell cols r c)) cols = true
   <-> l = r).
Proof.
  intros Hnd Hl Hr. split.
  - intros Hall. rewrite forallb_forall in Hall.
    rewrite <- (map_cell_id cols l Hnd Hl), <- (map_cell_id cols r Hnd Hr).
    apply map_ext_in. intros c Hc. now apply scalar_eqb_eq, Hall.
  - intros ->. apply forallb_forall. intros c _. now apply scalar_eqb_eq.
Qed.

(** Merging a table with distinct columns and distinct rows onto itself
    gives the table back. *)
Lemma merge_right_self (t : DataFrame) (q : string) :
  wf_frame t ->
  NoDup (columns t) ->
  NoDup (rows t) ->
  mem q (columns t) = true ->
  merge_right t t = Ok t.
Proof.
  intros Hwf Hcols Hrows Hq.
  destruct (merge_right_shared q t t Hq Hq) as (merged & Hm & _).
  rewrite Hm. f_equal.
  destruct (merge_right_rows t t merged Hm) as [Hc Hr].
  assert (Hon : filter (fun c => mem c (columns t)) (columns t) = columns t)
    by (apply filter_all; intros c Hc'; now apply mem_In).
  assert (Hronly : filter (fun c => negb (mem c (columns t))) (columns t) = []).
  { apply filter_none. intros c Hc'. apply mem_In in Hc'. now rewrite Hc'. }
  rewrite Hronly, app_nil_r in Hc. rewrite Hon, Hronly in Hr.
  unfold wf_frame in Hwf. rewrite Forall_forall in Hwf.
  assert (Hjoin : forall rs,
             (forall r, In r rs -> In r (rows t)) ->
             flat_map
               (fun r =>
                  match
                    filter (fun l => forallb
                                       (fun c => scalar_eqb (cell (columns t) l c)
                                                            (cell (columns t) r c))
                                       (columns t)) (rows t)
                  with
                  | [] => [map (fun c => if mem c (columns t)
                                         then cell (columns t) r c else SNaN)
                               (columns t)
                           ++ map (cell (columns t) r) []]
                  | l0 :: ls =>
                      map (fun l => map (cell (columns t) l) (columns t)
                                    ++ map (cell (columns t) r) []) (l0 :: ls)
                  end) rs = rs).
  { induction rs as [|r rs IH]; intros Hin; [reflexivity|]. cbn [flat_map].
    rewrite IH by (intros r' Hr'; apply Hin; now right).
    rewrite (filter_unique _ (rows t) r Hrows (Hin r (or_introl eq_refl))).
    - cbn [map app]. rewrite app_nil_r.
      rewrite (map_cell_id (columns t) r Hcols (Hwf r (Hin r (or_introl eq_refl)))).
      reflexivity.
    - intros l Hl. apply forallb_cell_eq; auto.
      apply Hwf, Hin. now left. }
  rewrite Hjoin in Hr by auto.
  destruct merged, t. simpl in *. congruence.
Qed.

Lemma NoDup_map_finer {A B C : Type} (f : A -> B) (h : A -> C) (l : list A) :
  (forall x y, h x = h y -> f x = f y) ->
  NoDup (map f l) -> NoDup (map h l).
Proof.
  intros Hfh. induction l as [|x l IH]; simpl; intros Hnd; [constructor|].
  inversion Hnd as [|? ? Hx Hnd']; subst. constructor; [|now apply IH].
  intros Hin. apply Hx. apply in_map_iff in Hin. destruct Hin as (y & Hy & Hin).
  apply in_map_iff. exists y. split; [|exact Hin]. now apply Hfh.
Qed.

Lemma frame_of_entry_rows_NoDup (q : string) (v : DataVar) :
  NoDup (map fst (var_elems v)) -> NoDup (rows (frame_of_entry q v)).
Proof.
  unfold frame_of_entry. simpl. apply NoDup_map_finer.
  intros x y Hxy. now apply app_inj_tail in Hxy.
Qed.

(** X24: caching the same array once more does not change the merged
    table: for an array that has a dimension, whose dimensions and quantity
    name are distinct and whose elements carry distinct labels, a container
    that holds the array any number of times combines to the table of the
    array. *)
Theorem combine_arrays_repeated (v : DataVar) (quantity : string) (n : nat) :
  var_dims v <> [] ->
  wf_entry v ->
  NoDup (var_dims v ++ [quantity]) ->
  NoDup (map fst (var_elems v)) ->
  combine_arrays (combine (seq 0 (S n)) (repeat v (S n))) quantity
  = Ok (frame_of_entry quantity v).
Proof.
  intros Hdim Hwf Hdims Hlabels.
  set (cached := combine (seq 0 (S n)) (repeat v (S n))).
  assert (Hv : convertible quantity v = true).
  { unfold convertible. destruct (var_dims v) as [|d dims] eqn:Ed; [congruence|].
    destruct (mem quantity (d :: dims)) eqn:Em; [|reflexivity]. exfalso.
    apply mem_In in Em. apply NoDup_remove_2 in Hdims.
    rewrite app_nil_r in Hdims. contradiction. }
  assert (Hconv : all_convertible quantity cached = true).
  { unfold all_convertible, cached. generalize 0 at 1. generalize (S n) as m.
    induction m as [|m IH]; intros start; [reflexivity|].
    cbn [seq repeat combine forallb snd]. now rewrite Hv, IH. }
  assert (Hkeys : dict_keys cached = seq 0 (S n)).
  { unfold dict_keys, cached. generalize 0 at 1 2. generalize (S n) as m.
    induction m as [|m IH]; intros start; [reflexivity|].
    cbn [seq repeat combine map fst]. now rewrite IH. }
  rewrite (combine_arrays_frames cached quantity);
    [|rewrite Hkeys; apply seq_NoDup].
  rewrite Hconv.
  assert (Hframes : map (fun kv => frame_of_entry quantity (snd kv)) cached
                    = repeat (frame_of_entry quantity v) (S n)).
  { unfold cached. generalize 0 at 1. generalize (S n) as m.
    induction m as [|m IH]; intros start; [reflexivity|].
    cbn [seq repeat combine map snd]. now rewrite IH. }
  rewrite Hframes. cbn [repeat reduce].
  set (t := frame_of_entry quantity v).
  assert (Hself : merge_right t t = Ok t).
  { apply (merge_right_self t quantity).
    - now apply frame_of_entry_wf.
    - exact Hdims.
    - now apply frame_of_entry_rows_NoDup.
    - apply frame_of_entry_has_quantity. }
  clear - Hself. induction n as [|n IH]; [reflexivity|].
  cbn [repeat foldM]. rewrite Hself. exact IH.
Qed.

Lemma combine_arrays_repeated_witness :
  let v := {| var_dims := ["agent"];
              var_elems := [([SStr "X"], SNum 5); ([SStr "Y"], SNum 0)] |} in
  var_dims v <> [] /\
  wf_entry v /\
  NoDup (var_dims v ++ ["capacity"]) /\
  NoDup (map fst (var_elems v)) /\
  combine_arrays [(0, v); (1, v); (2, v)] "capacity"
  = Ok (frame_of_entry "capacity" v).
Proof.
  intros v.
  assert (Hne : var_dims v <> []) by discriminate.
  assert (Hwf : wf_entry v) by (repeat constructor).
  assert (Hd : NoDup (var_dims v ++ ["capacity"])).
  { simpl. repeat constructor; simpl; intuition discriminate. }
  assert (Hl : NoDup (map fst (var_elems v))).
  { simpl. repeat constructor; simpl; intuition discriminate. }
  split; [exact Hne|]. split; [exact Hwf|]. split; [exact Hd|]. split; [exact Hl|].
  exact (combine_arrays_repeated v "capacity" 2 Hne Hwf Hd Hl).
Defined.
